(** * Fuel trim heatmap tool: binning, aggregation and masking

    A shallow embedding of [fuel_trims.py].  The script is a Streamlit page;
    everything between the two uploads and the plots is a straight-line
    pandas computation, which is embedded here as pure functions:

    - lines 46-54  mapping validation            [resolve]
    - line  56     [df_log.rename]               [rename]
    - lines 57-58  [dropna] and positivity       [record_filter]
    - lines 60-62  bin columns and [TotalTrim]   [assign_row], [assign],
                                                 [assign_columns]
    - lines 73-91  [create_trim_heatmap]         [create_trim_heatmap]
    - lines 93-109 [create_count_heatmap]        [create_count_heatmap]
    - lines 130-162 the [update_button] branch   [update], [update_columns]
    - lines 41-165 the whole run                 [script]

    Numbers.  pandas holds the log in int64 and float64 columns.  A numeric
    cell is embedded as the rational [Q] it denotes, so the model covers the
    finite numbers only: the values [inf] and [-inf], which [read_csv] also
    accepts, have no cell.  Arithmetic is exact: integer floor division and
    float floor division agree with the floor of the exact quotient, and
    sums and means are taken in [Q], so neither the rounding of float64 nor
    the wrap-around of int64 is part of the model.  Statements about the
    value of a sum or of a mean are therefore statements about exact
    arithmetic; the statements below that are meant of the running script
    are about which rows, keys and cells exist, about counts and about
    errors.

    Column types.  A cell of a table read by [read_csv] is a number, a
    missing value ([NaN]) or, in a column pandas could not parse as numbers,
    a string; such a column is text as a whole, and pandas 3 rejects
    arithmetic on it by its type, before it looks at any row. *)

From Stdlib Require Import ZArith QArith Qround Lia Lqa String.
From stdpp Require Import base option list strings gmap sorting.

Local Open Scope Z_scope.

(** ** Cells, errors *)

Inductive cell : Type :=
| NaN
| Num (x : Q)
| Str (s : string).

(** How a run of the script can end without output.  The first two are the
    [st.error] + [st.stop()] exits of lines 46-48 and 51-54; [Exception] is
    any Python exception, which the handler of lines 167-168 reports. *)
Inductive error : Type :=
| MissingMappingColumnsError
| MissingRequiredFieldError (missing : list string)
| Exception.

Inductive result (A : Type) : Type :=
| Ok (a : A)
| Err (e : error).
Arguments Ok {A} a.
Arguments Err {A} e.

Definition bind {A B} (r : result A) (f : A → result B) : result B :=
  match r with
  | Ok a => f a
  | Err e => Err e
  end.

Notation "'let*' x := r 'in' k" := (bind r (λ x, k))
  (at level 10, x name, r at level 100, k at level 200).

Fixpoint mapM {A B} (f : A → result B) (l : list A) : result (list B) :=
  match l with
  | [] => Ok []
  | a :: l' => let* b := f a in let* bs := mapM f l' in Ok (b :: bs)
  end.

Definition notna (c : cell) : bool :=
  match c with
  | NaN => false
  | _ => true
  end.

Definition is_str (c : cell) : bool :=
  match c with
  | Str _ => true
  | _ => false
  end.

(** ** Configuration (the sidebar, lines 15-19) *)

Inductive mode : Type :=
| ModeSTFT
| ModeLTFT
| ModeTotalTrim
| ModeSideBySide.

Record config : Type := mkConfig {
  rpm_bin_size : Z;
  map_bin_size : Z;
  min_samples : Z;
  trim_range : Z * Z;
  update_button : bool;
  selected_mode : mode
}.

(** The values the widgets can deliver. *)
Definition config_ok (c : config) : Prop :=
  rpm_bin_size c ∈ [250; 500; 1000] ∧
  map_bin_size c ∈ [25; 50; 100] ∧
  1 ≤ min_samples c ≤ 50 ∧
  -50 ≤ fst (trim_range c) ∧ fst (trim_range c) ≤ snd (trim_range c) ∧
  snd (trim_range c) ≤ 50.

Definition REQUIRED_COLUMNS : list string :=
  ["MAP_mbar"; "RPM"; "STFT"; "LTFT"]%string.

(** ** Tables as read by [pd.read_csv]

    A table is its columns in file order, each a label with its values.
    Labels are kept in a list, not a map: [rename] can give two columns the
    same label.  The mapping table holds text only. *)

Definition DataFrame : Type := list (string * list cell).
Definition MapFrame : Type := list (string * list string).

(** [df[label]]: every column carrying the label. *)
Definition getitem {A} (df : list (string * A)) (label : string) : list A :=
  (filter (λ c, c.1 = label) df).*2.

(** ** Schema Resolver (lines 46-54) *)

(** [dict(zip(keys, values))]: pairs are inserted left to right, so a later
    pair with the same key replaces the earlier one. *)
Definition dict (l : list (string * string)) : gmap string string :=
  foldl (λ m kv, <[kv.1 := kv.2]> m) ∅ l.

Definition dict_values (m : gmap string string) : list string :=
  (map_to_list m).*2.

Definition missing_columns (column_mapping : gmap string string) : list string :=
  filter (λ col, col ∉ dict_values column_mapping) REQUIRED_COLUMNS.

Definition resolve (df_map : MapFrame) : result (gmap string string) :=
  match getitem df_map "original", getitem df_map "new" with
  | original :: _, new :: _ =>
      let column_mapping := dict (zip original new) in
      match missing_columns column_mapping with
      | [] => Ok column_mapping
      | missing => Err (MissingRequiredFieldError missing)
      end
  | _, _ => Err MissingMappingColumnsError
  end.

(** ** [df_log.rename(columns=column_mapping)] (line 56)

    Each label that is a key of the mapping is replaced by its value; the
    columns themselves, their order and their number do not change. *)
Definition rename (column_mapping : gmap string string) (df : DataFrame)
  : DataFrame :=
  map (λ c, (default c.1 (column_mapping !! c.1), c.2)) df.

(** ** Rows

    The rest of the script reads the four required columns row by row. *)
Record Row : Type := mkRow {
  MAP_mbar : cell;
  RPM : cell;
  STFT : cell;
  LTFT : cell
}.

(** A required label must name one column: with none, [dropna(subset=...)]
    raises [KeyError]; with several, [df[label]] is a table and the column
    assignments of lines 60-62 raise [ValueError]. *)
Definition series (df : DataFrame) (label : string) : result (list cell) :=
  match getitem df label with
  | [c] => Ok c
  | _ => Err Exception
  end.

Fixpoint zip_rows (m r s l : list cell) : list Row :=
  match m, r, s, l with
  | a :: m', b :: r', c :: s', d :: l' => mkRow a b c d :: zip_rows m' r' s' l'
  | _, _, _, _ => []
  end.

Definition rows (df : DataFrame) : result (list Row) :=
  let* m := series df "MAP_mbar" in
  let* r := series df "RPM" in
  let* s := series df "STFT" in
  let* l := series df "LTFT" in
  Ok (zip_rows m r s l).

(** ** Record Filter (lines 57-58) *)

(** [dropna(subset=REQUIRED_COLUMNS)] keeps the rows with no missing value
    in the four columns. *)
Definition complete (r : Row) : bool :=
  notna (MAP_mbar r) && notna (RPM r) && notna (STFT r) && notna (LTFT r).

Definition dropna (df : list Row) : list Row :=
  List.filter complete df.

(** One element of [column > 0].  A missing value compares false; text
    against a number raises [TypeError]. *)
Definition gt0 (c : cell) : result bool :=
  match c with
  | Num x => Ok (if Qlt_le_dec 0 x then true else false)
  | NaN => Ok false
  | Str _ => Err Exception
  end.

(** [df[(df['MAP_mbar'] > 0) & (df['RPM'] > 0)]]: both comparisons are
    evaluated over the whole column before any row is selected. *)
Definition positive (df : list Row) : result (list Row) :=
  let* m := mapM (λ r, gt0 (MAP_mbar r)) df in
  let* r := mapM (λ r, gt0 (RPM r)) df in
  Ok (List.filter snd (zip df (zip_with andb m r))).*1.

Definition record_filter (df : list Row) : result (list Row) :=
  positive (dropna df).

(** ** Bin columns and [TotalTrim] (lines 60-62) *)

(** [(v // size) * size] on one number.  Bin labels are whole numbers and
    are carried as [Z]. *)
Definition bin (v : Q) (size : Z) : Z :=
  Qfloor (v / inject_Z size) * size.

(** The same on a cell: a missing value stays missing, text raises. *)
Definition bin_cell (c : cell) (size : Z) : result (option Z) :=
  match c with
  | Num v => Ok (Some (bin v size))
  | NaN => Ok None
  | Str _ => Err Exception
  end.

(** [df['STFT'] + df['LTFT']] on one row: numbers add (exactly, see the
    note on numbers), a missing value absorbs a number, two strings
    concatenate, text with anything else raises [TypeError]. *)
Definition add_cell (a b : cell) : result cell :=
  match a, b with
  | Num x, Num y => Ok (Num (x + y))
  | NaN, NaN | NaN, Num _ | Num _, NaN => Ok NaN
  | Str s, Str t => Ok (Str (s ++ t))
  | _, _ => Err Exception
  end.

Record BRow : Type := mkBRow {
  row : Row;
  RPM_bin : option Z;
  MAP_bin : option Z;
  TotalTrim : cell
}.

(** The values the three assignments compute on one row, and on the rows of
    a table.  The script evaluates them column by column, and pandas checks
    the type of a column before it computes any value: that check is in
    [assign_columns] below, which the script goes through.  When it passes,
    the new columns hold what [assign] computes; every failure is the same
    [Exception]. *)
Definition assign_row (cfg : config) (r : Row) : result BRow :=
  let* rb := bin_cell (RPM r) (rpm_bin_size cfg) in
  let* mb := bin_cell (MAP_mbar r) (map_bin_size cfg) in
  let* tt := add_cell (STFT r) (LTFT r) in
  Ok (mkBRow r rb mb tt).

Definition assign (cfg : config) (df : list Row) : result (list BRow) :=
  mapM (assign_row cfg) df.

(** The value columns a heatmap can aggregate ([trim_modes], lines 64-69). *)
Inductive signal : Type :=
| SigSTFT
| SigLTFT
| SigTotalTrim.

Definition value_col (s : signal) (r : BRow) : cell :=
  match s with
  | SigSTFT => STFT (row r)
  | SigLTFT => LTFT (row r)
  | SigTotalTrim => TotalTrim r
  end.

Definition trim_modes (m : mode) : option signal :=
  match m with
  | ModeSTFT => Some SigSTFT
  | ModeLTFT => Some SigLTFT
  | ModeTotalTrim => Some SigTotalTrim
  | ModeSideBySide => None
  end.

(** ** Labelled two-dimensional frames

    [pivot_table] returns a dense table: row labels ([index], MAP bins),
    column labels ([columns], RPM bins) and one value per pair, [None] where
    pandas holds NaN. *)

Definition BinKey : Type := Z * Z.   (* (RPM_bin, MAP_bin) *)

Record Frame (A : Type) : Type := mkFrame {
  index : list Z;
  columns : list Z;
  values : list (list A)
}.
Arguments mkFrame {A} _ _ _.
Arguments index {A} _.
Arguments columns {A} _.
Arguments values {A} _.

Definition position (x : Z) (l : list Z) : option nat :=
  fst <$> list_find (λ y, y = x) l.

(** [F.loc[MAP_bin, RPM_bin]], [None] when a label is not on the axes. *)
Definition loc {A} (F : Frame A) (k : BinKey) : option A :=
  i ← position k.2 (index F);
  j ← position k.1 (columns F);
  r ← values F !! i;
  r !! j.

(** The cell a frame of optional values holds at a key: [None] when the key
    is off the axes or the entry is NaN. *)
Definition cell_at {A} (F : Frame (option A)) (k : BinKey) : option A :=
  mjoin (loc F k).

Definition frame_map {A B} (f : A → B) (F : Frame A) : Frame B :=
  mkFrame (index F) (columns F) (map (map f) (values F)).

(** Element-wise binary operation on two identically labelled frames.  In
    this script the operands always carry the same labels (they are pivots
    of one table over the same two bin columns), so pandas takes no
    realignment step and the operation is positional. *)
Definition frame_zip {A B C} (f : A → B → C) (F : Frame A) (G : Frame B)
  : Frame C :=
  mkFrame (index F) (columns F) (zip_with (zip_with f) (values F) (values G)).

Definition same_axes {A B} (F : Frame A) (G : Frame B) : Prop :=
  index F = index G ∧ columns F = columns G.

(** Every row label has a row and every row has one entry per column. *)
Definition well_formed {A} (F : Frame A) : Prop :=
  length (values F) = length (index F) ∧
  Forall (λ r, length r = length (columns F)) (values F).

(** ** Binning & Aggregation Engine: [df.pivot_table] (lines 133-134, 144-146) *)

Definition key_of (r : BRow) : option BinKey :=
  rb ← RPM_bin r; mb ← MAP_bin r; Some (rb, mb).

(** The rows of one group.  Rows with a missing bin label belong to no
    group ([groupby] drops them). *)
Definition group (df : list BRow) (k : BinKey) : list BRow :=
  filter (λ r, key_of r = Some k) df.

Definition keys (df : list BRow) : list BinKey := omap key_of df.

Definition number (c : cell) : option Q :=
  match c with
  | Num x => Some x
  | _ => None
  end.

Definition Qsum (l : list Q) : Q := foldr Qplus 0%Q l.

Inductive aggfunc : Type :=
| AggMean
| AggCount.

(** Both aggregations skip missing values.  The mean of no value is NaN;
    the count of no value is 0. *)
Definition mean (l : list cell) : option Q :=
  match omap number l with
  | [] => None
  | xs => Some (Qsum xs / inject_Z (Z.of_nat (length xs)))%Q
  end.

Definition count (l : list cell) : option Q :=
  Some (inject_Z (Z.of_nat (length (List.filter notna l)))).

Definition aggregate (f : aggfunc) (l : list cell) : option Q :=
  match f with
  | AggMean => mean l
  | AggCount => count l
  end.

(** The aggregate of the group at a key, NaN for a key without rows. *)
Definition agg_at (f : aggfunc) (value : BRow → cell) (df : list BRow)
    (k : BinKey) : option Q :=
  match group df k with
  | [] => None
  | g => aggregate f (value <$> g)
  end.

(** Groups whose aggregate is NaN are dropped before the table is reshaped
    ([dropna=True]); the axes are the labels of the remaining groups. *)
Definition kept (f : aggfunc) (value : BRow → cell) (df : list BRow)
  : list BinKey :=
  filter (λ k, is_Some (agg_at f value df k)) (keys df).

Fixpoint insert_sorted (x : Z) (l : list Z) : list Z :=
  match l with
  | [] => [x]
  | y :: l' =>
      if (x <? y)%Z then x :: l
      else if (x =? y)%Z then l
      else y :: insert_sorted x l'
  end.

Definition unique_sorted (l : list Z) : list Z := foldr insert_sorted [] l.

Definition pivot_frame (f : aggfunc) (value : BRow → cell) (df : list BRow)
  : Frame (option Q) :=
  let ks := kept f value df in
  let idx := unique_sorted ks.*2 in
  let cols := unique_sorted ks.*1 in
  mkFrame idx cols (map (λ i, map (λ j, agg_at f value df (j, i)) cols) idx).

(** [df.pivot_table(index='MAP_bin', columns='RPM_bin', values=..., aggfunc=...)].
    A value column holding text has dtype object, which [mean] rejects;
    [count] accepts any column. *)
Definition pivot_table (df : list BRow) (value : signal) (f : aggfunc)
  : result (Frame (option Q)) :=
  match f with
  | AggMean =>
      if existsb is_str (value_col value <$> df) then Err Exception
      else Ok (pivot_frame AggMean (value_col value) df)
  | AggCount => Ok (pivot_frame AggCount (value_col value) df)
  end.

(** ** Validity Mask Builder and Overlay Combiner *)

(** [frame >= n] and [frame <= n]: NaN compares false. *)
Definition ge_scalar (F : Frame (option Q)) (n : Z) : Frame bool :=
  frame_map (λ c, match c with Some x => Qle_bool (inject_Z n) x | None => false end) F.

Definition le_scalar (F : Frame (option Q)) (n : Z) : Frame bool :=
  frame_map (λ c, match c with Some x => Qle_bool x (inject_Z n) | None => false end) F.

Definition frame_and : Frame bool → Frame bool → Frame bool := frame_zip andb.
Definition frame_or : Frame bool → Frame bool → Frame bool := frame_zip orb.

(** [frame.where(mask)]: NaN wherever the mask is false. *)
Definition where_ (F : Frame (option Q)) (mask : Frame bool) : Frame (option Q) :=
  frame_zip (λ c (b : bool), if b then c else None) F mask.

(** Lines 73-91; the figure is represented by the [z] it plots. *)
Definition create_trim_heatmap (cfg : config) (pivot_df count_df : Frame (option Q))
  : Frame (option Q) * Frame bool :=
  let '(min_trim, max_trim) := trim_range cfg in
  let mask :=
    frame_and (frame_and (ge_scalar count_df (min_samples cfg))
                         (ge_scalar pivot_df min_trim))
              (le_scalar pivot_df max_trim) in
  (where_ pivot_df mask, mask).

(** Lines 93-109. *)
Definition create_count_heatmap (count_df : Frame (option Q)) (mask : Frame bool)
  : Frame (option Q) :=
  where_ count_df mask.

(** Lines 111-128: three traces, one point per row, in row order. *)
Definition create_timeseries_chart (df : list BRow)
  : list cell * list cell * list cell :=
  (map (λ r, STFT (row r)) df, map (λ r, LTFT (row r)) df, map TotalTrim df).

(** ** The script *)

Inductive figures : Type :=
| Single (fig_trim : Frame (option Q)) (valid_mask : Frame bool)
         (fig_count : Frame (option Q))
| SideBySide (fig_stft fig_ltft : Frame (option Q))
             (mask_stft mask_ltft combined_mask : Frame bool)
             (fig_count : Frame (option Q)).

Record output : Type := mkOutput {
  heatmaps : figures;
  ts_chart : list cell * list cell * list cell
}.

(** The [if update_button:] branch (lines 131-162). *)
Definition update (cfg : config) (df : list BRow) : result output :=
  let* figs :=
    match trim_modes (selected_mode cfg) with
    | Some value =>
        let* pivot := pivot_table df value AggMean in
        let* count := pivot_table df value AggCount in
        let '(fig_trim, valid_mask) := create_trim_heatmap cfg pivot count in
        let fig_count := create_count_heatmap count valid_mask in
        Ok (Single fig_trim valid_mask fig_count)
    | None =>
        let* pivot_stft := pivot_table df SigSTFT AggMean in
        let* pivot_ltft := pivot_table df SigLTFT AggMean in
        let* count := pivot_table df SigSTFT AggCount in
        let '(fig_stft, mask_stft) := create_trim_heatmap cfg pivot_stft count in
        let '(fig_ltft, mask_ltft) := create_trim_heatmap cfg pivot_ltft count in
        let combined_mask := frame_or mask_stft mask_ltft in
        let fig_count := create_count_heatmap count combined_mask in
        Ok (SideBySide fig_stft fig_ltft mask_stft mask_ltft combined_mask fig_count)
    end in
  Ok (mkOutput figs (create_timeseries_chart df)).

(** ** Column types

    [read_csv] gives a column the type text as soon as one of its cells is
    text, and the column keeps that type when rows are dropped. *)
Definition text_typed (col : Row → cell) (raw : list Row) : bool :=
  existsb (λ r, is_str (col r)) raw.

(** Lines 60-62 on whole columns.  [raw] is the table as it was read, [df]
    its rows after the filter.  Floor division of a text column raises, and
    so does the sum of a text column and a numeric one, also when no row is
    left; two text columns are concatenated.  Otherwise the new columns are
    computed row by row. *)
Definition assign_columns (cfg : config) (raw df : list Row)
  : result (list BRow) :=
  if text_typed RPM raw then Err Exception
  else if text_typed MAP_mbar raw then Err Exception
  else if xorb (text_typed STFT raw) (text_typed LTFT raw) then Err Exception
  else assign cfg df.

(** The type of the value column a view takes the mean of; [TotalTrim] is
    text when both trims are. *)
Definition text_values (m : mode) (raw : list Row) : bool :=
  match trim_modes m with
  | Some SigSTFT => text_typed STFT raw
  | Some SigLTFT => text_typed LTFT raw
  | Some SigTotalTrim => text_typed STFT raw && text_typed LTFT raw
  | None => text_typed STFT raw || text_typed LTFT raw
  end.

(** The update branch on whole columns: the mean of a text column raises,
    also when no row is left. *)
Definition update_columns (cfg : config) (raw : list Row) (df : list BRow)
  : result output :=
  if text_values (selected_mode cfg) raw then Err Exception
  else update cfg df.

(** Lines 41-165, once both files are uploaded.  [Ok None] is the run that
    only shows the hint of line 165. *)
Definition script (cfg : config) (df_log : DataFrame) (df_map : MapFrame)
  : result (option output) :=
  let* column_mapping := resolve df_map in
  let* raw := rows (rename column_mapping df_log) in
  let* kept_rows := record_filter raw in
  let* df := assign_columns cfg raw kept_rows in
  if update_button cfg then
    let* out := update_columns cfg raw df in Ok (Some out)
  else Ok None.

(** ** Vocabulary of the statements *)

(** A cell holding a positive number. *)
Definition positive_cell (c : cell) : bool :=
  match c with
  | Num x => if Qlt_le_dec 0 x then true else false
  | _ => false
  end.

(** The rows the Record Filter is meant to keep: no missing value in the
    four required fields, [MAP_mbar] and [RPM] positive numbers. *)
Definition valid_row (r : Row) : bool :=
  complete r && positive_cell (MAP_mbar r) && positive_cell (RPM r).

(** A row whose [MAP_mbar] or [RPM] is text. *)
Definition text_key (r : Row) : bool :=
  is_str (MAP_mbar r) || is_str (RPM r).

(** A row whose trims are not text. *)
Definition numeric_row (r : Row) : bool :=
  negb (is_str (STFT r)) && negb (is_str (LTFT r)).

(** A row of the table after lines 57-62: a valid row with its bin columns
    and [TotalTrim] assigned. *)
Definition filtered (cfg : config) (b : BRow) : Prop :=
  valid_row (row b) = true ∧ assign_row cfg (row b) = Ok b.

(** The value of a signal on a record: [TotalTrim] is the sum of the two
    trims of that record. *)
Definition signal_of (s : signal) (r : Row) : option Q :=
  match s with
  | SigSTFT => number (STFT r)
  | SigLTFT => number (LTFT r)
  | SigTotalTrim => x ← number (STFT r); y ← number (LTFT r); Some (x + y)%Q
  end.

(** The sum of the entries of a grid, a missing entry counting for
    nothing. *)
Definition frame_sum (F : Frame (option Q)) : Q :=
  Qsum (map (λ r, Qsum (map (default 0%Q) r)) (values F)).

(** A record that a count grid counts: it has both bin labels and a value in
    the counted column. *)
Definition counted (value : BRow → cell) (b : BRow) : bool :=
  match key_of b with
  | Some _ => notna (value b)
  | None => false
  end.

(** The key of a record read off its row: the floor multiples of its [RPM]
    and its [MAP_mbar], when both are numbers; and the rows of a table that
    fall under a key. *)
Definition bin_key (cfg : config) (r : Row) : option BinKey :=
  match RPM r, MAP_mbar r with
  | Num v, Num m =>
      Some (bin v (rpm_bin_size cfg), bin m (map_bin_size cfg))
  | _, _ => None
  end.

Definition members (cfg : config) (df : list Row) (k : BinKey) : list Row :=
  filter (λ r, bin_key cfg r = Some k) df.

(** The grid with no label and no entry, and what the script plots from it. *)
Definition empty_frame {A} : Frame A := mkFrame [] [] [].

Definition empty_figures (m : mode) : figures :=
  match trim_modes m with
  | Some _ => Single empty_frame empty_frame empty_frame
  | None =>
      SideBySide empty_frame empty_frame empty_frame empty_frame empty_frame
                 empty_frame
  end.

(** ** Sample inputs

    Concrete tables and settings on which the statements below are run. *)

Definition example_cfg : config :=
  mkConfig 500 50 1 (-50, 50) true ModeTotalTrim.

Definition example_pivot : Frame (option Q) :=
  mkFrame [450; 500] [1000] [[None]; [Some 3%Q]].

Definition example_count : Frame (option Q) :=
  mkFrame [450; 500] [1000] [[None]; [Some 5%Q]].

Definition example_mask_stft : Frame bool :=
  mkFrame [450; 500] [1000; 1500] [[true; false]; [false; false]].

Definition example_mask_ltft : Frame bool :=
  mkFrame [450; 500] [1000; 1500] [[false; false]; [false; true]].

(** Rows with text in a required field. *)
Definition text_row : Row :=
  mkRow (Num 500) (Num 1000) (Str "abc") (Num 1).

Definition text_map_row : Row :=
  mkRow (Str "abc") (Num 1000) (Num 2) (Num 1).

(** Five records in one cell, a row with a negative [RPM], a row with a
    missing [STFT], and one record in another cell. *)
Definition example_rows : list Row :=
  replicate 5 (mkRow (Num 500) (Num 1000) (Num 2) (Num 1)) ++
  [mkRow (Num 500) (Num (-5)) (Num 2) (Num 1);
   mkRow (Num 530) (Num 1499) NaN (Num 1);
   mkRow (Num 560) (Num 1600) (Num 4) (Num (-1))].

Definition example_df : list Row := List.filter valid_row example_rows.

Definition example_bdf : list BRow :=
  match assign example_cfg example_df with
  | Ok l => l
  | Err _ => []
  end.

(** A binned table that did not go through the filter: [LTFT] is missing. *)
Definition unfiltered_bdf : list BRow :=
  [mkBRow (mkRow (Num 500) (Num 1000) (Num 2) NaN) (Some 1000) (Some 500) NaN].

(** A row the filter drops for its negative [RPM], with text in [STFT]; a
    log that holds only this row, and a mapping that renames its columns. *)
Definition dropped_text_row : Row :=
  mkRow (Num 500) (Num (-5)) (Str "abc") (Num 1).

Definition dropped_text_log : DataFrame :=
  [("rpm", [Num (-5)]); ("map", [Num 500]); ("st", [Str "abc"]);
   ("lt", [Num 1])]%string.

Definition plain_map : MapFrame :=
  [("original", ["rpm"; "map"; "st"; "lt"]);
   ("new", ["RPM"; "MAP_mbar"; "STFT"; "LTFT"])]%string.

(** A log with two source columns that one mapping sends to [RPM], and the
    same mapping reduced to its last [RPM] row. *)
Definition dup_log : DataFrame :=
  [("a", [Num 1000]); ("b", [Num 2000]); ("map", [Num 500]);
   ("st", [Num 2]); ("lt", [Num 1])]%string.

Definition dup_map : MapFrame :=
  [("original", ["a"; "b"; "map"; "st"; "lt"]);
   ("new", ["RPM"; "RPM"; "MAP_mbar"; "STFT"; "LTFT"])]%string.

Definition last_map : MapFrame :=
  [("original", ["b"; "map"; "st"; "lt"]);
   ("new", ["RPM"; "MAP_mbar"; "STFT"; "LTFT"])]%string.

(** * Properties *)

(** ** The error monad *)

Lemma bind_Ok {A B} (r : result A) (f : A → result B) (b : B) :
  bind r f = Ok b ↔ ∃ a, r = Ok a ∧ f a = Ok b.
Proof.
  destruct r as [a|e]; simpl; split.
  - eauto.
  - by intros (a' & [= <-] & ?).
  - done.
  - by intros (a' & ? & ?).
Qed.

Lemma mapM_Ok_inv {A B} (f : A → result B) (l : list A) (bs : list B) :
  mapM f l = Ok bs → Forall2 (λ a b, f a = Ok b) l bs.
Proof.
  revert bs. induction l as [|a l IH]; intros bs; simpl.
  - intros [= <-]. constructor.
  - intros (b & Hb & (bs' & Hbs & [= <-])%bind_Ok)%bind_Ok.
    constructor; auto.
Qed.

(** ** Frames *)

Lemma position_Some x l :
  x ∈ l → ∃ p, position x l = Some p ∧ l !! p = Some x.
Proof.
  intros Hx. unfold position.
  destruct (list_find_elem_of (λ y, y = x) l x Hx eq_refl) as [[p y] Hp].
  rewrite Hp. simpl. apply list_find_Some in Hp as (Hl & -> & _). eauto.
Qed.

Lemma position_None x l : x ∉ l → position x l = None.
Proof.
  intros Hx. unfold position.
  destruct (list_find _ l) as [[p y]|] eqn:Hp; [|done].
  apply list_find_Some in Hp as (Hl & -> & _).
  destruct Hx. eapply list_elem_of_lookup_2. eauto.
Qed.

Lemma position_is_Some x l : is_Some (position x l) ↔ x ∈ l.
Proof.
  split.
  - intros [p Hp]. destruct (decide (x ∈ l)) as [|Hn]; [done|].
    rewrite (position_None _ _ Hn) in Hp. done.
  - intros (p & -> & _)%position_Some. eauto.
Qed.

Lemma loc_frame_map {A B} (f : A → B) (F : Frame A) k :
  loc (frame_map f F) k = f <$> loc F k.
Proof.
  unfold loc, frame_map. simpl.
  destruct (position k.2 (index F)) as [i|]; simpl; [|done].
  destruct (position k.1 (columns F)) as [j|]; simpl; [|done].
  rewrite list_lookup_fmap.
  destruct (values F !! i) as [r|]; simpl; [|done].
  by rewrite list_lookup_fmap.
Qed.

Lemma loc_frame_zip {A B C} (f : A → B → C) (F : Frame A) (G : Frame B) k :
  same_axes F G →
  loc (frame_zip f F G) k = a ← loc F k; b ← loc G k; Some (f a b).
Proof.
  intros [Hi Hc]. unfold loc, frame_zip. simpl. rewrite <- Hi, <- Hc.
  destruct (position k.2 (index F)) as [i|]; simpl; [|done].
  destruct (position k.1 (columns F)) as [j|]; simpl; [|done].
  rewrite lookup_zip_with.
  destruct (values F !! i) as [r|]; simpl; [|done].
  destruct (values G !! i) as [r'|]; simpl.
  - rewrite lookup_zip_with. done.
  - by destruct (r !! j).
Qed.

Lemma loc_is_Some {A} (F : Frame A) k :
  well_formed F →
  is_Some (loc F k) ↔ k.2 ∈ index F ∧ k.1 ∈ columns F.
Proof.
  intros [Hlen Hrows]. unfold loc. split.
  - intros [a Ha].
    destruct (position k.2 (index F)) as [i|] eqn:Hi; simpl in Ha; [|done].
    destruct (position k.1 (columns F)) as [j|] eqn:Hj; simpl in Ha; [|done].
    split; apply position_is_Some; eauto.
  - intros [(i & -> & Hi)%position_Some (j & -> & Hj)%position_Some]. simpl.
    apply lookup_lt_Some in Hi, Hj.
    destruct (lookup_lt_is_Some_2 (values F) i) as [r Hr]; [lia|].
    rewrite Hr. simpl. apply lookup_lt_is_Some_2.
    rewrite Forall_forall in Hrows. rewrite (Hrows r); [done|].
    eapply list_elem_of_lookup_2; eauto.
Qed.

Lemma same_axes_sym {A B} (F : Frame A) (G : Frame B) :
  same_axes F G → same_axes G F.
Proof. intros []. by split. Qed.

Lemma same_axes_trans {A B C} (F : Frame A) (G : Frame B) (H : Frame C) :
  same_axes F G → same_axes G H → same_axes F H.
Proof. intros [] []. split; congruence. Qed.

(** ** Axes of a pivot *)

Lemma elem_of_insert_sorted z x l : z ∈ insert_sorted x l ↔ z = x ∨ z ∈ l.
Proof.
  induction l as [|y l IH]; simpl.
  - rewrite list_elem_of_singleton, elem_of_nil. tauto.
  - destruct (Z.ltb_spec x y); [by rewrite elem_of_cons|].
    destruct (Z.eqb_spec x y) as [->|].
    + rewrite elem_of_cons. tauto.
    + rewrite !elem_of_cons, IH. tauto.
Qed.

Lemma elem_of_unique_sorted z l : z ∈ unique_sorted l ↔ z ∈ l.
Proof.
  induction l as [|x l IH]; simpl; [done|].
  by rewrite elem_of_insert_sorted, IH, elem_of_cons.
Qed.

Lemma group_nil df k : group df k = [] ↔ k ∉ keys df.
Proof.
  unfold group, keys. rewrite list_elem_of_omap. split.
  - intros Hg (r & Hr & Hk).
    assert (r ∈ filter (λ r, key_of r = Some k) df) as Hin
      by (by apply list_elem_of_filter).
    rewrite Hg in Hin. by apply elem_of_nil in Hin.
  - intros Hn. destruct (filter _ df) as [|r g] eqn:Hg; [done|].
    assert (r ∈ filter (λ r, key_of r = Some k) df) as Hin
      by (rewrite Hg; left).
    apply list_elem_of_filter in Hin as [Hk Hr]. destruct Hn. eauto.
Qed.

Lemma agg_at_Some_keys f value df k :
  is_Some (agg_at f value df k) → k ∈ keys df.
Proof.
  unfold agg_at. intros Hs.
  destruct (decide (k ∈ keys df)) as [|Hn]; [done|].
  apply group_nil in Hn. rewrite Hn in Hs. by destruct Hs.
Qed.

Lemma elem_of_kept f value df k :
  k ∈ kept f value df ↔ is_Some (agg_at f value df k).
Proof.
  unfold kept. rewrite list_elem_of_filter. split; [tauto|].
  intros Hs. split; [done|]. by eapply agg_at_Some_keys.
Qed.

Lemma loc_table (g : BinKey → option Q) (idx cols : list Z) (k : BinKey) :
  loc (mkFrame idx cols (map (λ i, map (λ j, g (j, i)) cols) idx)) k =
  if decide (k.2 ∈ idx ∧ k.1 ∈ cols) then Some (g k) else None.
Proof.
  destruct k as [j i]. unfold loc. simpl. case_decide as Hd.
  - destruct Hd as [(p & -> & Hp)%position_Some (q & -> & Hq)%position_Some].
    simpl. rewrite list_lookup_fmap, Hp. simpl.
    by rewrite list_lookup_fmap, Hq.
  - destruct (decide (i ∈ idx)) as [Hi|Hi].
    + destruct (decide (j ∈ cols)) as [Hj|Hj]; [tauto|].
      rewrite (position_None _ _ Hj). by destruct (position i idx).
    + by rewrite (position_None _ _ Hi).
Qed.

(** The cell of a pivot at a key is the aggregate of the key's group. *)
Lemma cell_at_pivot_frame f value df k :
  cell_at (pivot_frame f value df) k = agg_at f value df k.
Proof.
  unfold cell_at, pivot_frame. rewrite loc_table. case_decide as Hd; [done|].
  simpl. destruct (agg_at f value df k) as [a|] eqn:Ha; [|done].
  destruct Hd. rewrite !elem_of_unique_sorted.
  assert (k ∈ kept f value df) as Hk by (apply elem_of_kept; eauto).
  split; apply list_elem_of_fmap; eauto.
Qed.

Lemma pivot_frame_well_formed f value df :
  well_formed (pivot_frame f value df).
Proof.
  unfold well_formed, pivot_frame. simpl. split.
  - by rewrite length_map.
  - apply Forall_forall. intros r (i & -> & _)%list_elem_of_fmap.
    by rewrite length_map.
Qed.

(** Two aggregations that keep the same groups give the same axes. *)
Lemma pivot_frame_same_axes f g value value' df :
  (∀ k, is_Some (agg_at f value df k) ↔ is_Some (agg_at g value' df k)) →
  same_axes (pivot_frame f value df) (pivot_frame g value' df).
Proof.
  intros H. assert (kept f value df = kept g value' df) as Hk.
  { unfold kept. apply list_filter_iff. intros k. apply H. }
  unfold same_axes, pivot_frame. simpl. by rewrite Hk.
Qed.

(** ** Validity mask *)

Lemma loc_create_trim_heatmap cfg (pivot_df count_df : Frame (option Q)) k :
  same_axes pivot_df count_df →
  loc (create_trim_heatmap cfg pivot_df count_df).2 k =
  c ← loc count_df k; m ← loc pivot_df k;
  Some (match c, m with
        | Some c, Some m =>
            Qle_bool (inject_Z (min_samples cfg)) c &&
            Qle_bool (inject_Z (trim_range cfg).1) m &&
            Qle_bool m (inject_Z (trim_range cfg).2)
        | _, _ => false
        end).
Proof.
  intros [Hi Hc]. unfold create_trim_heatmap.
  destruct (trim_range cfg) as [min_trim max_trim]. simpl.
  unfold frame_and. rewrite !loc_frame_zip by (split; simpl; congruence).
  unfold ge_scalar, le_scalar. rewrite !loc_frame_map.
  destruct (loc count_df k) as [[c|]|], (loc pivot_df k) as [[m|]|]; simpl;
    rewrite ?andb_false_r; done.
Qed.

(** C1.  For frames over the same axes, the mask of [create_trim_heatmap]
    is true at a key exactly when the value frame holds a mean there, the
    count frame holds a count of at least [min_samples], and the mean lies
    in the closed trim range.  A key without a value is never true; when it
    lies on the axes its entry is [false], and building the mask cannot
    fail. *)
Theorem validity_mask_iff cfg (pivot_df count_df : Frame (option Q)) (k : BinKey) :
  same_axes pivot_df count_df →
  well_formed pivot_df →
  well_formed count_df →
  let mask := (create_trim_heatmap cfg pivot_df count_df).2 in
  (loc mask k = Some true ↔
     ∃ m c, cell_at pivot_df k = Some m ∧ cell_at count_df k = Some c ∧
            (inject_Z (min_samples cfg) <= c)%Q ∧
            (inject_Z (trim_range cfg).1 <= m)%Q ∧
            (m <= inject_Z (trim_range cfg).2)%Q) ∧
  (cell_at pivot_df k = None → loc mask k ≠ Some true) ∧
  (cell_at pivot_df k = None →
   k.2 ∈ index pivot_df → k.1 ∈ columns pivot_df → loc mask k = Some false).
Proof.
  intros Hax Hwp Hwc mask. subst mask.
  rewrite (loc_create_trim_heatmap _ _ _ _ Hax). unfold cell_at.
  split_and!.
  - split.
    + destruct (loc count_df k) as [[c|]|], (loc pivot_df k) as [[m|]|];
        simpl; try done.
      intros [= H]. apply andb_true_iff in H as [H H3].
      apply andb_true_iff in H as [H1 H2].
      exists m, c. by rewrite <- !Qle_bool_iff.
    + intros (m & c & Hm & Hc & H1 & H2 & H3).
      destruct (loc count_df k) as [[c'|]|]; simplify_eq/=.
      destruct (loc pivot_df k) as [[m'|]|]; simplify_eq/=.
      apply Qle_bool_iff in H1, H2, H3. by rewrite H1, H2, H3.
  - destruct (loc count_df k) as [[c|]|], (loc pivot_df k) as [[m|]|];
      simpl; done.
  - intros Hm Hi Hc.
    assert (is_Some (loc pivot_df k)) as [p Hp] by (by apply loc_is_Some).
    assert (is_Some (loc count_df k)) as [c Hc'].
    { apply loc_is_Some; [done|]. destruct Hax as [<- <-]. done. }
    rewrite Hp, Hc' in *. simpl in *. subst p. by destruct c.
Qed.

Lemma example_well_formed :
  same_axes example_pivot example_count ∧
  well_formed example_pivot ∧ well_formed example_count.
Proof. repeat split; repeat constructor. Qed.

Lemma validity_mask_iff_witness :
  (same_axes example_pivot example_count ∧
   well_formed example_pivot ∧ well_formed example_count) ∧
  loc (create_trim_heatmap example_cfg example_pivot example_count).2
      (1000, 500) = Some true.
Proof.
  split; [exact example_well_formed|].
  destruct example_well_formed as (Hax & Hp & Hc).
  apply (validity_mask_iff example_cfg example_pivot example_count
           (1000, 500) Hax Hp Hc).
  exists 3%Q, 5%Q. repeat split; vm_compute; congruence.
Defined.

Lemma well_formed_frame_map {A B} (f : A → B) (F : Frame A) :
  well_formed F → well_formed (frame_map f F).
Proof.
  intros [Hl Hr]. split; simpl; [by rewrite length_map|].
  apply Forall_fmap. eapply Forall_impl; [exact Hr|].
  intros r Hlen. simpl. by rewrite length_map.
Qed.

Lemma well_formed_frame_zip {A B C} (f : A → B → C) (F : Frame A) (G : Frame B) :
  same_axes F G → well_formed F → well_formed G →
  well_formed (frame_zip f F G).
Proof.
  intros [Hi Hc] [Hl Hr] [Hl' Hr']. split; simpl.
  - rewrite length_zip_with. rewrite Hi in *. lia.
  - apply Forall_forall. intros r Hin.
    apply list_elem_of_lookup in Hin as [i Hi'].
    apply lookup_zip_with_Some in Hi' as (a & b & -> & Ha & Hb).
    rewrite length_zip_with.
    rewrite Forall_forall in Hr. rewrite Forall_forall in Hr'.
    rewrite (Hr a), (Hr' b) by (eapply list_elem_of_lookup_2; eauto).
    rewrite Hc. lia.
Qed.

Lemma well_formed_create_trim_heatmap cfg (pivot_df count_df : Frame (option Q)) :
  same_axes pivot_df count_df → well_formed pivot_df → well_formed count_df →
  well_formed (create_trim_heatmap cfg pivot_df count_df).2 ∧
  same_axes (create_trim_heatmap cfg pivot_df count_df).2 count_df.
Proof.
  intros Hax Hp Hc. unfold create_trim_heatmap.
  destruct (trim_range cfg) as [min_trim max_trim]. simpl.
  pose proof (same_axes_sym _ _ Hax) as Hax'.
  split; [|done].
  repeat (apply well_formed_frame_zip || apply well_formed_frame_map); done.
Qed.

(** ** Overlay combiner *)

(** C5.  For two masks over the same axes, the combined mask is their
    entry-wise disjunction: it has an entry exactly where the inputs have
    one, and the entry is true exactly when one of the inputs is true. *)
Theorem combined_mask_or (mask_stft mask_ltft : Frame bool) (k : BinKey) :
  same_axes mask_stft mask_ltft →
  well_formed mask_stft →
  well_formed mask_ltft →
  let combined_mask := frame_or mask_stft mask_ltft in
  (loc combined_mask k = Some true ↔
     loc mask_stft k = Some true ∨ loc mask_ltft k = Some true) ∧
  (is_Some (loc combined_mask k) ↔
     is_Some (loc mask_stft k) ∨ is_Some (loc mask_ltft k)) ∧
  loc combined_mask k = (a ← loc mask_stft k; b ← loc mask_ltft k; Some (a || b)).
Proof.
  intros Hax Hw1 Hw2 combined_mask. subst combined_mask.
  unfold frame_or. rewrite (loc_frame_zip _ _ _ _ Hax).
  assert (is_Some (loc mask_stft k) ↔ is_Some (loc mask_ltft k)) as Hs.
  { rewrite !loc_is_Some by done. by destruct Hax as [-> ->]. }
  destruct (loc mask_stft k) as [a|], (loc mask_ltft k) as [b|]; simpl.
  - split_and!; [|split; eauto|done]. split.
    + intros [= H]. apply orb_true_iff in H as [->| ->]; auto.
    + intros [[= ->]|[= ->]]; by rewrite ?orb_true_r.
  - destruct Hs as [Hs _]. destruct Hs as [? [=]]. eauto.
  - destruct Hs as [_ Hs]. destruct Hs as [? [=]]. eauto.
  - split_and!; [|split; [by intros [? [=]]|by intros [[? [=]]|[? [=]]]]|done].
    split; [done|]. by intros [|].
Qed.

Lemma example_masks_well_formed :
  same_axes example_mask_stft example_mask_ltft ∧
  well_formed example_mask_stft ∧ well_formed example_mask_ltft.
Proof. repeat split; repeat constructor. Qed.

Lemma combined_mask_or_witness :
  (same_axes example_mask_stft example_mask_ltft ∧
   well_formed example_mask_stft ∧ well_formed example_mask_ltft) ∧
  loc (frame_or example_mask_stft example_mask_ltft) (1500, 500) = Some true.
Proof.
  split; [exact example_masks_well_formed|].
  destruct example_masks_well_formed as (Hax & H1 & H2).
  destruct (combined_mask_or example_mask_stft example_mask_ltft (1500, 500)
              Hax H1 H2) as [Hiff _].
  apply Hiff. right. reflexivity.
Defined.

(** ** Binning *)

Lemma Qfloor_spec (q : Q) (k : Z) :
  Qfloor q = k ↔ (inject_Z k <= q)%Q ∧ (q < inject_Z (k + 1))%Q.
Proof.
  split.
  - intros <-. split; [apply Qfloor_le|apply Qlt_floor].
  - intros [Hle Hlt].
    assert (k ≤ Qfloor q).
    { rewrite <- (Qfloor_Z k). by apply Qfloor_resp_le. }
    assert (Qfloor q < k + 1).
    { rewrite Zlt_Qlt. eapply Qle_lt_trans; [apply Qfloor_le|done]. }
    lia.
Qed.

Lemma bin_spec (v : Q) (size k : Z) :
  0 < size →
  bin v size = k * size ↔
  (inject_Z (k * size) <= v)%Q ∧ (v < inject_Z ((k + 1) * size))%Q.
Proof.
  intros Hs. unfold bin.
  assert (0 < inject_Z size)%Q as Hq
    by (change (inject_Z 0 < inject_Z size)%Q; by rewrite <- Zlt_Qlt).
  assert (¬ (inject_Z size == 0)%Q) as Hne by lra.
  rewrite !inject_Z_mult.
  transitivity (Qfloor (v / inject_Z size) = k).
  { split; [|by intros ->]. intros H. apply Z.mul_cancel_r in H; [done|lia]. }
  rewrite Qfloor_spec. 
  assert (v / inject_Z size * inject_Z size == v)%Q as Hv by (by field).
  split; intros [H1 H2]; split.
  - apply (Qmult_le_compat_r _ _ (inject_Z size)) in H1; [|lra].
    by rewrite Hv in H1.
  - apply (Qmult_lt_compat_r _ _ (inject_Z size)) in H2; [|lra].
    by rewrite Hv in H2.
  - by apply Qle_shift_div_l.
  - by apply Qlt_shift_div_r.
Qed.

(** On whole numbers the bin is integer floor division, as pandas computes
    it for an int64 column. *)
Lemma bin_inject_Z (n size : Z) : 0 < size → bin (inject_Z n) size = n / size * size.
Proof.
  intros Hs. apply bin_spec; [done|]. rewrite <- Zle_Qle, <- Zlt_Qlt.
  pose proof (Z.mul_div_le n size Hs).
  pose proof (Z.mul_succ_div_gt n size Hs). lia.
Qed.

(** ** Record Filter *)

Lemma mapM_gt0 {A} (g : A → cell) (l : list A) :
  mapM (λ r, gt0 (g r)) l =
  if existsb (λ r, is_str (g r)) l then Err Exception
  else Ok (map (λ r, positive_cell (g r)) l).
Proof.
  induction l as [|a l IH]; simpl; [done|].
  destruct (g a) as [|x|s]; simpl; [| |done].
  - rewrite IH. by destruct (existsb _ l).
  - rewrite IH. by destruct (existsb _ l).
Qed.

Lemma filter_zip_mask {A} (f : A → bool) (l : list A) :
  (List.filter snd (zip l (map f l))).*1 = List.filter f l.
Proof.
  induction l as [|a l IH]; simpl; [done|].
  destruct (f a); simpl; [f_equal|]; exact IH.
Qed.

Lemma zip_with_map {A B C D} (h : B → C → D) (f : A → B) (g : A → C) (l : list A) :
  zip_with h (map f l) (map g l) = map (λ a, h (f a) (g a)) l.
Proof. induction l; simpl; congruence. Qed.

Lemma existsb_orb {A} (f g : A → bool) (l : list A) :
  existsb (λ a, f a || g a) l = existsb f l || existsb g l.
Proof.
  induction l as [|a l IH]; simpl; [done|]. rewrite IH.
  destruct (f a), (g a), (existsb f l), (existsb g l); done.
Qed.

Lemma positive_spec (df : list Row) :
  positive df =
  if existsb text_key df then Err Exception
  else Ok (List.filter (λ r, positive_cell (MAP_mbar r) && positive_cell (RPM r)) df).
Proof.
  unfold positive, text_key. rewrite existsb_orb, !mapM_gt0.
  destruct (existsb (λ r, is_str (MAP_mbar r)) df); simpl; [done|].
  destruct (existsb (λ r, is_str (RPM r)) df); simpl; [done|].
  by rewrite zip_with_map, filter_zip_mask.
Qed.

Lemma filter_filter_andb {A} (f g : A → bool) (l : list A) :
  List.filter g (List.filter f l) = List.filter (λ a, f a && g a) l.
Proof.
  induction l as [|a l IH]; simpl; [done|].
  destruct (f a); simpl; [|done]. destruct (g a); by rewrite IH.
Qed.

Lemma filter_sublist {A} (f : A → bool) (l : list A) :
  sublist (List.filter f l) l.
Proof.
  induction l as [|a l IH]; simpl; [constructor|].
  destruct (f a); by constructor.
Qed.

Lemma positive_cell_spec c :
  positive_cell c = true ↔ ∃ x, c = Num x ∧ (0 < x)%Q.
Proof.
  destruct c as [|x|s]; simpl.
  - split; [done|]. by intros (x & ? & _).
  - destruct (Qlt_le_dec 0 x) as [Hx|Hx].
    + split; [eauto|done].
    + split; [done|]. intros (y & [= <-] & Hy). lra.
  - split; [done|]. by intros (x & ? & _).
Qed.

Lemma valid_row_spec r :
  valid_row r = true ↔
  MAP_mbar r ≠ NaN ∧ RPM r ≠ NaN ∧ STFT r ≠ NaN ∧ LTFT r ≠ NaN ∧
  (∃ m, MAP_mbar r = Num m ∧ (0 < m)%Q) ∧ (∃ x, RPM r = Num x ∧ (0 < x)%Q).
Proof.
  unfold valid_row, complete. rewrite !andb_true_iff, !positive_cell_spec.
  assert (∀ c, notna c = true ↔ c ≠ NaN) as Hn by (by intros []).
  rewrite !Hn. tauto.
Qed.

(** The whole filter: text in [MAP_mbar] or [RPM] of a row without missing
    values makes the comparison raise; otherwise exactly the valid rows are
    kept, in order. *)
Lemma record_filter_eq (df : list Row) :
  record_filter df =
  if existsb text_key (dropna df) then Err Exception
  else Ok (List.filter valid_row df).
Proof.
  unfold record_filter. rewrite positive_spec.
  destruct (existsb text_key (dropna df)); [done|].
  unfold dropna. rewrite filter_filter_andb. f_equal.
  apply List.filter_ext. intros r. unfold valid_row. by rewrite andb_assoc.
Qed.

(** C4 (as the code behaves).  The filter returns the valid rows in their
    original order, so its output is a subsequence of the input and no
    longer than it; a row is valid exactly when none of the four required
    fields is missing and [MAP_mbar] and [RPM] are positive numbers.  Text
    is not a missing value: in [STFT] or [LTFT] it does not affect the
    filter, and in [MAP_mbar] or [RPM] of a row without missing values it
    makes the filter raise. *)
Theorem record_filter_spec (df : list Row) :
  record_filter df =
    (if existsb text_key (dropna df) then Err Exception
     else Ok (List.filter valid_row df)) ∧
  sublist (List.filter valid_row df) df ∧
  (length (List.filter valid_row df) ≤ length df)%nat ∧
  (∀ r, valid_row r = true ↔
        MAP_mbar r ≠ NaN ∧ RPM r ≠ NaN ∧ STFT r ≠ NaN ∧ LTFT r ≠ NaN ∧
        (∃ m, MAP_mbar r = Num m ∧ (0 < m)%Q) ∧
        (∃ x, RPM r = Num x ∧ (0 < x)%Q)).
Proof.
  split_and!.
  - apply record_filter_eq.
  - apply filter_sublist.
  - apply sublist_length, filter_sublist.
  - apply valid_row_spec.
Qed.

(** A row whose [STFT] is text is kept, and a row whose [MAP_mbar] is text
    makes the filter raise: neither is dropped silently. *)
Lemma record_filter_text_not_dropped :
  STFT text_row = Str "abc" ∧
  record_filter [text_row] = Ok [text_row] ∧
  MAP_mbar text_map_row = Str "abc" ∧
  record_filter [text_map_row] = Err Exception.
Proof. by vm_compute. Qed.

Lemma record_filter_valid (rows df : list Row) :
  record_filter rows = Ok df → Forall (λ r, valid_row r = true) df.
Proof.
  rewrite record_filter_eq. destruct (existsb _ _); [done|].
  intros [= <-]. apply Forall_forall. intros r Hr.
  apply list_elem_of_In, List.filter_In in Hr. tauto.
Qed.

(** ** The table after filtering and binning *)

Lemma assign_filtered cfg (rows df : list Row) (bdf : list BRow) :
  record_filter rows = Ok df → assign cfg df = Ok bdf →
  Forall (filtered cfg) bdf ∧ row <$> bdf = df.
Proof.
  intros Hf%record_filter_valid Ha%mapM_Ok_inv.
  induction Ha as [|r b df bdf Hb Ha IH]; [by split; constructor|].
  apply Forall_cons in Hf as [Hr Hf]. destruct (IH Hf) as [IH1 IH2].
  assert (row b = r) as Hrow.
  { unfold assign_row in Hb.
    destruct (bin_cell _ _); simpl in Hb; [|done].
    destruct (bin_cell _ _); simpl in Hb; [|done].
    destruct (add_cell _ _); simpl in Hb; [|done]. by injection Hb as <-. }
  split.
  - constructor; [|done]. split; by rewrite Hrow.
  - rewrite fmap_cons. by rewrite Hrow, IH2.
Qed.

Lemma filtered_inv cfg b :
  filtered cfg b →
  ∃ m v tt, MAP_mbar (row b) = Num m ∧ RPM (row b) = Num v ∧
            (0 < m)%Q ∧ (0 < v)%Q ∧
            STFT (row b) ≠ NaN ∧ LTFT (row b) ≠ NaN ∧
            add_cell (STFT (row b)) (LTFT (row b)) = Ok tt ∧
            b = mkBRow (row b) (Some (bin v (rpm_bin_size cfg)))
                       (Some (bin m (map_bin_size cfg))) tt.
Proof.
  intros [Hv Ha]. apply valid_row_spec in Hv
    as (_ & _ & Hs & Hl & (m & Hm & Hm0) & (v & Hr & Hv0)).
  unfold assign_row in Ha. rewrite Hm, Hr in Ha. simpl in Ha.
  destruct (add_cell _ _) as [tt|] eqn:Htt; simpl in Ha; [|done].
  exists m, v, tt. split_and!; try done. by injection Ha.
Qed.

(** C2.  With a positive bin size, the bin of [v] is [floor(v/size)*size]:
    it is the multiple [k*size] with [k*size <= v < (k+1)*size].  A value on
    a boundary belongs to the bin that starts there, and every value below
    the first boundary (down to 0) falls in bin 0.  Both bin columns of
    every filtered record are computed by this function, [RPM_bin] with the
    RPM bin size and [MAP_bin] with the MAP bin size. *)
Theorem bin_is_floor (v : Q) (size : Z) :
  0 < size →
  bin_cell (Num v) size = Ok (Some (Qfloor (v / inject_Z size) * size)) ∧
  (∀ k, bin v size = k * size ↔
        (inject_Z (k * size) <= v)%Q ∧ (v < inject_Z ((k + 1) * size))%Q) ∧
  bin (inject_Z size) size = size ∧
  (∀ ε : Q, (0 < ε)%Q → (ε <= inject_Z size)%Q →
            bin (inject_Z size - ε) size = 0) ∧
  (∀ cfg b, filtered cfg b →
     ∃ r m, RPM (row b) = Num r ∧ MAP_mbar (row b) = Num m ∧
            RPM_bin b = Some (bin r (rpm_bin_size cfg)) ∧
            MAP_bin b = Some (bin m (map_bin_size cfg))).
Proof.
  intros Hs.
  assert (0 < inject_Z size)%Q as Hq
    by (change (inject_Z 0 < inject_Z size)%Q; by rewrite <- Zlt_Qlt).
  split_and!.
  - done.
  - intros k. by apply bin_spec.
  - replace size with (1 * size) at 3 by lia. apply bin_spec; [done|].
    rewrite !inject_Z_mult. change (inject_Z (1 + 1)) with 2%Q.
    change (inject_Z 1) with 1%Q. split; lra.
  - intros ε H0 H1. change 0 with (0 * size). apply bin_spec; [done|].
    rewrite !inject_Z_mult. change (inject_Z (0 + 1)) with 1%Q.
    change (inject_Z 0) with 0%Q. split; lra.
  - intros cfg b (m & r & tt & Hm & Hr & _ & _ & _ & _ & _ & ->)%filtered_inv.
    exists r, m. by simpl in *.
Qed.

Lemma bin_is_floor_witness :
  0 < 500 ∧ bin (inject_Z 500) 500 = 500 ∧ bin (inject_Z 500 - 1) 500 = 0.
Proof.
  split; [lia|].
  destruct (bin_is_floor 1250 500 ltac:(lia)) as (_ & _ & Hb & Hlow & _).
  split; [exact Hb|]. apply Hlow; [reflexivity|discriminate].
Defined.

Lemma filtered_notna cfg b sig :
  filtered cfg b → notna (value_col sig b) = true.
Proof.
  intros (m & v & tt & _ & _ & _ & _ & Hs & Hl & Htt & ->)%filtered_inv.
  simpl in *.
  destruct sig; simpl;
    destruct (STFT _), (LTFT _); simplify_eq/=; done.
Qed.

Lemma group_filtered cfg (bdf : list BRow) k :
  Forall (filtered cfg) bdf → Forall (filtered cfg) (group bdf k).
Proof.
  intros H. apply Forall_forall. intros b Hb.
  apply list_elem_of_filter in Hb as [_ Hb].
  rewrite Forall_forall in H. auto.
Qed.

Lemma filter_notna_all (l : list cell) :
  Forall (λ c, notna c = true) l → List.filter notna l = l.
Proof.
  induction 1 as [|c l Hc _ IH]; simpl; [done|]. by rewrite Hc, IH.
Qed.

(** On the filtered table the count of a group is its size, whatever the
    value column. *)
Lemma count_filtered cfg (bdf : list BRow) sig k :
  Forall (filtered cfg) bdf →
  agg_at AggCount (value_col sig) bdf k =
  match group bdf k with
  | [] => None
  | g => Some (inject_Z (Z.of_nat (length g)))
  end.
Proof.
  intros H%(group_filtered _ _ k). unfold agg_at.
  destruct (group bdf k) as [|b g] eqn:Hg; [done|].
  cbv beta iota. unfold aggregate, count. rewrite filter_notna_all.
  - by rewrite length_fmap.
  - apply Forall_fmap. eapply Forall_impl; [exact H|].
    intros b' Hb'. simpl. by eapply filtered_notna.
Qed.

Lemma pivot_frame_ext f g value value' (df : list BRow) :
  (∀ k, agg_at f value df k = agg_at g value' df k) →
  pivot_frame f value df = pivot_frame g value' df.
Proof.
  intros H. unfold pivot_frame.
  assert (kept f value df = kept g value' df) as ->.
  { unfold kept. apply list_filter_iff. intros k. by rewrite H. }
  f_equal. apply map_ext. intros i. apply map_ext. intros j. apply H.
Qed.

Lemma pivot_table_Ok (df : list BRow) sig f F :
  pivot_table df sig f = Ok F → F = pivot_frame f (value_col sig) df.
Proof.
  unfold pivot_table. destruct f; [|congruence].
  destruct (existsb _ _); congruence.
Qed.

(** ** Count grid in side-by-side mode *)

(** C10.  On the filtered table the count grid computed from [STFT] is the
    count grid computed from [LTFT]: no surviving row has a missing value
    in either column. *)
Theorem count_grid_stft_ltft cfg (rows df : list Row) (bdf : list BRow) :
  record_filter rows = Ok df →
  assign cfg df = Ok bdf →
  pivot_table bdf SigSTFT AggCount = pivot_table bdf SigLTFT AggCount.
Proof.
  intros Hf Ha. destruct (assign_filtered _ _ _ _ Hf Ha) as [Hb _].
  unfold pivot_table. f_equal. apply pivot_frame_ext. intros k.
  by rewrite !(count_filtered cfg).
Qed.

Lemma example_filtered :
  record_filter example_rows = Ok example_df ∧
  assign example_cfg example_df = Ok example_bdf.
Proof. by vm_compute. Qed.

Lemma count_grid_stft_ltft_witness :
  (record_filter example_rows = Ok example_df ∧
   assign example_cfg example_df = Ok example_bdf) ∧
  pivot_table example_bdf SigSTFT AggCount =
  pivot_table example_bdf SigLTFT AggCount.
Proof.
  split; [exact example_filtered|].
  destruct example_filtered as [Hf Ha].
  exact (count_grid_stft_ltft example_cfg example_rows example_df
           example_bdf Hf Ha).
Defined.

(** Without the filter the two count grids can differ. *)
Lemma count_grid_needs_filter :
  pivot_table unfiltered_bdf SigSTFT AggCount ≠
  pivot_table unfiltered_bdf SigLTFT AggCount.
Proof. by vm_compute. Qed.

(** ** Cells of a grid *)

Lemma agg_at_mean_Some value (df : list BRow) k m :
  agg_at AggMean value df k = Some m →
  ∃ x xs, omap number (value <$> group df k) = x :: xs ∧
          m = (Qsum (x :: xs) / inject_Z (Z.of_nat (length (x :: xs))))%Q.
Proof.
  unfold agg_at. destruct (group df k) as [|b g]; [done|].
  cbv beta iota. unfold aggregate, mean.
  destruct (omap number _) as [|x xs]; [done|]. intros [= <-]. eauto.
Qed.

(** C8.  In a grid computed from the filtered table a key that holds a
    count holds a count of at least 1, equal to the number of its member
    records; a key that holds a mean holds the mean of at least one value;
    and a key with no member record holds nothing, neither a zero count nor
    a zero mean. *)
Theorem no_empty_cell cfg (rows df : list Row) (bdf : list BRow) sig k :
  record_filter rows = Ok df →
  assign cfg df = Ok bdf →
  (∀ F c, pivot_table bdf sig AggCount = Ok F → cell_at F k = Some c →
          (1 <= c)%Q ∧ c = inject_Z (Z.of_nat (length (group bdf k))) ∧
          group bdf k ≠ []) ∧
  (∀ F m, pivot_table bdf sig AggMean = Ok F → cell_at F k = Some m →
          group bdf k ≠ [] ∧
          ∃ x xs, omap number (value_col sig <$> group bdf k) = x :: xs ∧
                  m = (Qsum (x :: xs) / inject_Z (Z.of_nat (length (x :: xs))))%Q) ∧
  (∀ F f, pivot_table bdf sig f = Ok F → group bdf k = [] → cell_at F k = None).
Proof.
  intros Hf Ha. destruct (assign_filtered _ _ _ _ Hf Ha) as [Hb _].
  split_and!.
  - intros F c ->%pivot_table_Ok. rewrite cell_at_pivot_frame.
    rewrite (count_filtered cfg) by done.
    destruct (group bdf k) as [|b g]; [done|]. intros [= <-].
    split_and!; [|done|done].
    change 1%Q with (inject_Z 1). rewrite <- Zle_Qle. simpl. lia.
  - intros F m ->%pivot_table_Ok. rewrite cell_at_pivot_frame. intros Hm.
    split; [|by apply agg_at_mean_Some].
    intros Hg. unfold agg_at in Hm. by rewrite Hg in Hm.
  - intros F f ->%pivot_table_Ok Hg. rewrite cell_at_pivot_frame.
    unfold agg_at. by rewrite Hg.
Qed.

Lemma no_empty_cell_witness :
  (record_filter example_rows = Ok example_df ∧
   assign example_cfg example_df = Ok example_bdf) ∧
  cell_at (pivot_frame AggCount (value_col SigSTFT) example_bdf) (1000, 500)
    = Some 5%Q ∧
  (1 <= 5)%Q.
Proof.
  split; [exact example_filtered|].
  destruct example_filtered as [Hf Ha].
  split; [reflexivity|].
  destruct (no_empty_cell example_cfg example_rows example_df example_bdf
              SigSTFT (1000, 500) Hf Ha) as (Hc & _ & _).
  apply (Hc (pivot_frame AggCount (value_col SigSTFT) example_bdf) 5%Q);
    reflexivity.
Defined.

(** ** Mean and count of a cell *)

Lemma numeric_inv cfg b :
  filtered cfg b → numeric_row (row b) = true →
  ∃ s l, STFT (row b) = Num s ∧ LTFT (row b) = Num l ∧
         TotalTrim b = Num (s + l).
Proof.
  intros (m & v & tt & _ & _ & _ & _ & Hs & Hl & Htt & Hb)%filtered_inv Hn.
  unfold numeric_row in Hn. rewrite Hb. simpl in *.
  destruct (STFT (row b)) as [|s|], (LTFT (row b)) as [|l|];
    simplify_eq/=. eauto.
Qed.

Lemma value_col_numeric cfg b sig :
  filtered cfg b → numeric_row (row b) = true →
  ∃ x, value_col sig b = Num x ∧ signal_of sig (row b) = Some x.
Proof.
  intros Hf Hn. destruct (numeric_inv _ _ Hf Hn) as (s & l & Hs & Hl & Ht).
  destruct sig; simpl; rewrite ?Hs, ?Hl, ?Ht; simpl; eauto.
Qed.

Lemma values_numeric cfg sig (g : list BRow) :
  Forall (filtered cfg) g →
  Forall (λ b, numeric_row (row b) = true) g →
  ∃ vals, value_col sig <$> g = Num <$> vals ∧
          Forall2 (λ b x, signal_of sig (row b) = Some x) g vals.
Proof.
  induction g as [|b g IH]; intros Hf Hn.
  - exists []. by split; [|constructor].
  - apply Forall_cons in Hf as [Hb Hf]. apply Forall_cons in Hn as [Hnb Hn].
    destruct (IH Hf Hn) as (vals & Hv & H2).
    destruct (value_col_numeric _ _ sig Hb Hnb) as (x & Hx & Hsx).
    exists (x :: vals). split; [|by constructor].
    rewrite !fmap_cons. by rewrite Hx, Hv.
Qed.

Lemma omap_number_Num (vals : list Q) : omap number (Num <$> vals) = vals.
Proof. induction vals as [|x vals IH]; simpl; [done|]. by f_equal. Qed.

Lemma existsb_is_str_Num (vals : list Q) : existsb is_str (Num <$> vals) = false.
Proof. induction vals; simpl; done. Qed.

Lemma assign_total cfg (df : list Row) :
  Forall (λ r, valid_row r = true) df →
  Forall (λ r, numeric_row r = true) df →
  ∃ bdf, assign cfg df = Ok bdf.
Proof.
  induction df as [|r df IH]; intros Hv Hn; [by exists []|].
  apply Forall_cons in Hv as [Hr Hv]. apply Forall_cons in Hn as [Hnr Hn].
  destruct (IH Hv Hn) as [bdf Hb]. unfold assign in *. simpl. rewrite Hb.
  apply valid_row_spec in Hr
    as (_ & _ & Hs & Hl & (m & Hm & _) & (v & Hr & _)).
  unfold assign_row, numeric_row in *. rewrite Hm, Hr. simpl.
  destruct (STFT r), (LTFT r); simplify_eq/=; eauto.
Qed.

Lemma group_sub (df : list BRow) k (P : BRow → Prop) :
  Forall P df → Forall P (group df k).
Proof.
  intros H. apply Forall_forall. intros b Hb.
  apply list_elem_of_filter in Hb as [_ Hb].
  rewrite Forall_forall in H. auto.
Qed.

Lemma example_numeric : Forall (λ r, numeric_row r = true) example_df.
Proof. vm_compute. repeat constructor. Qed.

(** The scenario of the specification: five records at RPM 1000, MAP 500
    with trims 2 and 1 give one cell with mean total trim 3 and count 5. *)
Lemma scenario_five_records :
  let df := replicate 5 (mkRow (Num 500) (Num 1000) (Num 2) (Num 1)) in
  ∃ bdf, (let* kept_rows := record_filter df in assign example_cfg kept_rows)
         = Ok bdf ∧
  pivot_table bdf SigTotalTrim AggMean
    = Ok (mkFrame [500] [1000] [[Some (15 # 5)]]) ∧
  pivot_table bdf SigTotalTrim AggCount
    = Ok (mkFrame [500] [1000] [[Some 5%Q]]).
Proof. eexists. by vm_compute. Qed.

(** ** Empty filter output *)

Lemma update_nil cfg :
  update cfg [] =
    Ok (mkOutput (empty_figures (selected_mode cfg)) ([], [], [])).
Proof.
  unfold update, empty_figures, create_trim_heatmap.
  destruct (selected_mode cfg), (trim_range cfg); reflexivity.
Qed.

(** The column check of [assign_columns] and of [update_columns] either
    raises or leaves the row-wise computation. *)
Lemma assign_columns_cases cfg (raw df : list Row) :
  assign_columns cfg raw df = Err Exception ∨
  assign_columns cfg raw df = assign cfg df.
Proof.
  unfold assign_columns.
  destruct (text_typed RPM raw), (text_typed MAP_mbar raw),
    (xorb (text_typed STFT raw) (text_typed LTFT raw)); auto.
Qed.

Lemma update_columns_cases cfg (raw : list Row) (df : list BRow) :
  update_columns cfg raw df = Err Exception ∨
  update_columns cfg raw df = update cfg df.
Proof.
  unfold update_columns. destruct (text_values (selected_mode cfg) raw); auto.
Qed.

Lemma text_typed_false (col : Row → cell) (raw : list Row) :
  text_typed col raw = false ↔ Forall (λ r, is_str (col r) = false) raw.
Proof.
  unfold text_typed. induction raw as [|r raw IH]; simpl.
  - split; [constructor|done].
  - rewrite orb_false_iff, Forall_cons, IH. done.
Qed.

Lemma assign_columns_numeric cfg (raw df : list Row) :
  text_typed MAP_mbar raw = false → text_typed RPM raw = false →
  text_typed STFT raw = false → text_typed LTFT raw = false →
  assign_columns cfg raw df = assign cfg df.
Proof. unfold assign_columns. by intros -> -> -> ->. Qed.

Lemma update_columns_numeric cfg (raw : list Row) (df : list BRow) :
  text_typed STFT raw = false → text_typed LTFT raw = false →
  update_columns cfg raw df = update cfg df.
Proof.
  unfold update_columns, text_values. intros -> ->.
  by destruct (trim_modes (selected_mode cfg)) as [[]|].
Qed.

(** C9.  When no row survives the filter and none of the four required
    columns of the log is text, nothing raises: binning yields the empty
    table, every pivot is the empty grid, the mask built from it is the
    empty mask (true at no key), and the update branch returns figures made
    of empty frames.  When [RPM] or [MAP_mbar] is a text column, or exactly
    one of [STFT] and [LTFT] is, binning raises although no row is left. *)
Theorem empty_table_no_error cfg (raw : list Row) :
  record_filter raw = Ok [] →
  (text_typed MAP_mbar raw = false → text_typed RPM raw = false →
   text_typed STFT raw = false → text_typed LTFT raw = false →
   assign_columns cfg raw [] = Ok [] ∧
   (let* kept_rows := record_filter raw in
    let* df := assign_columns cfg raw kept_rows in
    update_columns cfg raw df)
   = Ok (mkOutput (empty_figures (selected_mode cfg)) ([], [], []))) ∧
  (text_typed RPM raw = true ∨ text_typed MAP_mbar raw = true ∨
   text_typed STFT raw ≠ text_typed LTFT raw →
   assign_columns cfg raw [] = Err Exception ∧
   (let* kept_rows := record_filter raw in
    let* df := assign_columns cfg raw kept_rows in
    update_columns cfg raw df) = Err Exception) ∧
  record_filter [] = Ok [] ∧
  (∀ sig f, pivot_table [] sig f = Ok empty_frame) ∧
  (create_trim_heatmap cfg empty_frame empty_frame).2 = empty_frame ∧
  (∀ k, cell_at (@empty_frame (option Q)) k = None) ∧
  (∀ k, loc (@empty_frame bool) k = None).
Proof.
  intros Hf. split_and!; try done.
  - intros Hm Hr Hs Hl.
    rewrite Hf. simpl. rewrite (assign_columns_numeric _ _ _ Hm Hr Hs Hl).
    split; [done|]. simpl.
    rewrite (update_columns_numeric _ _ _ Hs Hl). apply update_nil.
  - intros Htext.
    assert (assign_columns cfg raw [] = Err Exception) as He.
    { unfold assign_columns.
      destruct (text_typed RPM raw); [done|].
      destruct (text_typed MAP_mbar raw); [done|].
      destruct (text_typed STFT raw), (text_typed LTFT raw); simpl; try done;
        by destruct Htext as [?|[?|?]]. }
    split; [done|]. rewrite Hf. simpl. by rewrite He.
  - by intros sig [].
  - unfold create_trim_heatmap. by destruct (trim_range cfg).
Qed.

Lemma empty_table_no_error_witness :
  record_filter [mkRow (Num 500) (Num (-5)) (Num 2) (Num 1)] = Ok [] ∧
  (let* kept_rows :=
     record_filter [mkRow (Num 500) (Num (-5)) (Num 2) (Num 1)] in
   let* df :=
     assign_columns example_cfg [mkRow (Num 500) (Num (-5)) (Num 2) (Num 1)]
                    kept_rows in
   update_columns example_cfg [mkRow (Num 500) (Num (-5)) (Num 2) (Num 1)] df)
  = Ok (mkOutput (empty_figures (selected_mode example_cfg)) ([], [], [])).
Proof.
  assert (record_filter [mkRow (Num 500) (Num (-5)) (Num 2) (Num 1)] = Ok [])
    as H by reflexivity.
  split; [exact H|].
  destruct (empty_table_no_error example_cfg _ H) as (Hnum & _).
  apply Hnum; reflexivity.
Defined.

(** A log whose only row has a negative [RPM] and text in [STFT]: the filter
    drops the row, so its output is empty, and yet the sum of line 62 raises,
    because [STFT] is a text column and [LTFT] a numeric one.  The run ends
    in the handler of lines 167-168, with no grid and no mask. *)
Lemma empty_output_text_column_raises :
  record_filter [dropped_text_row] = Ok [] ∧
  assign_columns example_cfg [dropped_text_row] [] = Err Exception ∧
  (let* kept_rows := record_filter [dropped_text_row] in
   let* df := assign_columns example_cfg [dropped_text_row] kept_rows in
   update_columns example_cfg [dropped_text_row] df) = Err Exception ∧
  rows (rename (dict (zip ["rpm"; "map"; "st"; "lt"]
                          ["RPM"; "MAP_mbar"; "STFT"; "LTFT"])%string)
               dropped_text_log) = Ok [dropped_text_row] ∧
  script example_cfg dropped_text_log plain_map = Err Exception.
Proof. split_and!; by vm_compute. Qed.

(** ** Schema Resolver *)

Lemma getitem_nil {A} (df : list (string * A)) (label : string) :
  getitem df label = [] ↔ label ∉ df.*1.
Proof.
  unfold getitem. split.
  - intros Hf%fmap_nil_inv (c & -> & Hc)%list_elem_of_fmap.
    assert (c ∈ filter (λ c' : string * A, c'.1 = c.1) df) as Hin
      by (by apply list_elem_of_filter).
    rewrite Hf in Hin. by apply elem_of_nil in Hin.
  - intros Hn. rewrite (elem_of_nil_inv (filter _ df)); [done|].
    intros c [Hc Hin]%list_elem_of_filter.
    apply Hn. rewrite <- Hc. by apply list_elem_of_fmap_2.
Qed.

Lemma elem_of_dict_values (m : gmap string string) (col : string) :
  col ∈ dict_values m ↔ ∃ k, m !! k = Some col.
Proof.
  unfold dict_values. rewrite list_elem_of_fmap. split.
  - intros ([k v] & -> & Hkv%elem_of_map_to_list). eauto.
  - intros [k Hk]. exists (k, col). by rewrite elem_of_map_to_list.
Qed.

Lemma elem_of_missing_columns (m : gmap string string) (col : string) :
  col ∈ missing_columns m ↔
  col ∈ REQUIRED_COLUMNS ∧ ¬ ∃ k, m !! k = Some col.
Proof.
  unfold missing_columns.
  rewrite list_elem_of_filter, elem_of_dict_values. tauto.
Qed.

Lemma resolve_spec (df_map : MapFrame) :
  resolve df_map =
  match head (getitem df_map "original"), head (getitem df_map "new") with
  | Some original, Some new =>
      match missing_columns (dict (zip original new)) with
      | [] => Ok (dict (zip original new))
      | missing => Err (MissingRequiredFieldError missing)
      end
  | _, _ => Err MissingMappingColumnsError
  end.
Proof.
  unfold resolve.
  destruct (getitem df_map "original"), (getitem df_map "new"); done.
Qed.

Lemma script_resolve_error cfg (df_log : DataFrame) (df_map : MapFrame) e :
  resolve df_map = Err e → script cfg df_log df_map = Err e.
Proof. unfold script. by intros ->. Qed.

(** C6.  The resolver stops with [MissingMappingColumnsError] exactly when
    the mapping table has no [original] or no [new] column, and with
    [MissingRequiredFieldError] exactly when both are there and some
    required field is not a value of the mapping; the error then carries
    exactly the required fields that are no value of the mapping.  It fails
    in no other way, and a run whose resolver fails ends with that error:
    no figure, mask or time series is produced. *)
Theorem resolve_failures (df_map : MapFrame) :
  (resolve df_map = Err MissingMappingColumnsError ↔
     "original"%string ∉ df_map.*1 ∨ "new"%string ∉ df_map.*1) ∧
  (∀ missing,
     resolve df_map = Err (MissingRequiredFieldError missing) ↔
     ∃ original new,
       head (getitem df_map "original") = Some original ∧
       head (getitem df_map "new") = Some new ∧
       missing = missing_columns (dict (zip original new)) ∧
       missing ≠ []) ∧
  (∀ (m : gmap string string) col,
     col ∈ missing_columns m ↔
     col ∈ REQUIRED_COLUMNS ∧ ¬ ∃ k, m !! k = Some col) ∧
  resolve df_map ≠ Err Exception ∧
  (∀ cfg df_log e,
     resolve df_map = Err e → script cfg df_log df_map = Err e).
Proof.
  split_and!.
  - rewrite <- !getitem_nil, resolve_spec.
    destruct (getitem df_map "original") as [|o ?],
             (getitem df_map "new") as [|n ?]; simpl;
      try (split; [auto|done]).
    destruct (missing_columns _); split; try done; by intros [|].
  - intros missing. rewrite resolve_spec.
    destruct (head (getitem df_map "original")) as [o|],
             (head (getitem df_map "new")) as [n|];
      try (split; [done|]; by intros (? & ? & ? & ? & _)).
    destruct (missing_columns (dict (zip o n))) as [|c cs] eqn:Hm.
    + split; [done|]. intros (? & ? & [= <-] & [= <-] & -> & Hne).
      by rewrite Hm in Hne.
    + split.
      * intros [= <-]. exists o, n. by rewrite Hm.
      * intros (? & ? & [= <-] & [= <-] & -> & _). by rewrite Hm.
  - apply elem_of_missing_columns.
  - rewrite resolve_spec.
    destruct (head (getitem df_map "original")),
             (head (getitem df_map "new")); try done.
    by destruct (missing_columns _).
  - intros cfg df_log e. apply script_resolve_error.
Qed.

Lemma resolve_failures_witness :
  resolve [("original", ["rpm"; "map"; "st"]);
           ("new", ["RPM"; "MAP_mbar"; "STFT"])]%string
    = Err (MissingRequiredFieldError ["LTFT"%string]) ∧
  script example_cfg dup_log
         [("original", ["rpm"; "map"; "st"]);
          ("new", ["RPM"; "MAP_mbar"; "STFT"])]%string
    = Err (MissingRequiredFieldError ["LTFT"%string]).
Proof.
  assert (resolve [("original", ["rpm"; "map"; "st"]);
                   ("new", ["RPM"; "MAP_mbar"; "STFT"])]%string
          = Err (MissingRequiredFieldError ["LTFT"%string])) as H
    by (by vm_compute).
  split; [exact H|].
  destruct (resolve_failures [("original", ["rpm"; "map"; "st"]);
                              ("new", ["RPM"; "MAP_mbar"; "STFT"])]%string)
    as (_ & _ & _ & _ & Hs).
  exact (Hs example_cfg dup_log _ H).
Defined.

Lemma resolve_scenarios :
  resolve [("original", ["rpm"; "map"; "st"; "lt"])]%string
    = Err MissingMappingColumnsError ∧
  resolve [("original", ["rpm"; "map"; "st"]);
           ("new", ["RPM"; "MAP_mbar"; "STFT"])]%string
    = Err (MissingRequiredFieldError ["LTFT"%string]).
Proof. by vm_compute. Qed.

(** ** Duplicate mappings *)

Lemma foldl_insert_lookup_ne (l : list (string * string))
    (m : gmap string string) (k : string) :
  k ∉ l.*1 → foldl (λ m kv, <[kv.1 := kv.2]> m) m l !! k = m !! k.
Proof.
  revert m. induction l as [|[k' v'] l IH]; intros m Hk; simpl; [done|].
  rewrite fmap_cons, not_elem_of_cons in Hk. destruct Hk as [Hne Hk].
  rewrite IH by done. simpl. by rewrite lookup_insert_ne.
Qed.

(** Rows of the mapping table with the same source column: the last one
    decides the target. *)
Lemma dict_last_wins (l1 l2 : list (string * string)) (k v : string) :
  k ∉ l2.*1 → dict (l1 ++ (k, v) :: l2) !! k = Some v.
Proof.
  intros Hk. unfold dict. rewrite foldl_app. simpl.
  rewrite foldl_insert_lookup_ne by done. apply lookup_insert_eq.
Qed.

Lemma getitem_rename (m : gmap string string) (df : DataFrame) (c : string) :
  getitem (rename m df) c =
  (filter (λ col, default col.1 (m !! col.1) = c) df).*2.
Proof.
  unfold getitem, rename. induction df as [|[h vals] df IH]; [done|].
  rewrite map_cons, filter_cons.
  rewrite (filter_cons (λ col : string * list cell,
                          default col.1 (m !! col.1) = c)).
  cbn [fst snd].
  destruct (decide (default h (m !! h) = c)); [|exact IH].
  rewrite !fmap_cons. f_equal. exact IH.
Qed.

Lemma filter_two {A} (P : A → Prop) `{∀ x, Decision (P x)} (l : list A) x y :
  x ≠ y → x ∈ l → y ∈ l → P x → P y → (2 ≤ length (filter P l))%nat.
Proof.
  intros Hne Hx Hy Px Py.
  assert (x ∈ filter P l) as Hx' by (by apply list_elem_of_filter).
  assert (y ∈ filter P l) as Hy' by (by apply list_elem_of_filter).
  destruct (filter P l) as [|a [|b l']]; simpl; [|exfalso|lia].
  - by apply elem_of_nil in Hx'.
  - apply list_elem_of_singleton in Hx', Hy'. congruence.
Qed.

Lemma series_duplicate (df : DataFrame) (label : string) :
  (2 ≤ length (getitem df label))%nat → series df label = Err Exception.
Proof.
  unfold series. destruct (getitem df label) as [|x [|y l]]; simpl; [lia..|done].
Qed.

(** C7 (as the code behaves).  Several rows of the mapping table with the
    same source column: the last row decides.  Two different source columns
    of the log mapped to one canonical field: [rename] gives both the
    canonical label, the renamed table holds both columns under it, and
    reading the field as one column raises. *)
Theorem duplicate_targets (m : gmap string string) (df : DataFrame)
    (a b c : string) (ca cb : list cell) :
  a ≠ b →
  (a, ca) ∈ df → (b, cb) ∈ df →
  m !! a = Some c → m !! b = Some c →
  ca ∈ getitem (rename m df) c ∧
  cb ∈ getitem (rename m df) c ∧
  (2 ≤ length (getitem (rename m df) c))%nat ∧
  series (rename m df) c = Err Exception ∧
  (∀ (l1 l2 : list (string * string)) k v,
     k ∉ l2.*1 → dict (l1 ++ (k, v) :: l2) !! k = Some v).
Proof.
  intros Hne Ha Hb Hma Hmb.
  assert (default (a, ca).1 (m !! (a, ca).1) = c) as Pa by (simpl; by rewrite Hma).
  assert (default (b, cb).1 (m !! (b, cb).1) = c) as Pb by (simpl; by rewrite Hmb).
  assert (2 ≤ length (getitem (rename m df) c))%nat as Hlen.
  { rewrite getitem_rename, length_fmap.
    apply (filter_two _ df (a, ca) (b, cb)); try done. congruence. }
  rewrite getitem_rename in *. split_and!.
  - apply (list_elem_of_fmap_2 snd _ (a, ca)). by apply list_elem_of_filter.
  - apply (list_elem_of_fmap_2 snd _ (b, cb)). by apply list_elem_of_filter.
  - done.
  - apply series_duplicate. by rewrite getitem_rename.
  - intros l1 l2 k v. apply dict_last_wins.
Qed.

Lemma duplicate_targets_witness :
  ("a" ≠ "b" ∧
   ("a", [Num 1000]) ∈ dup_log ∧ ("b", [Num 2000]) ∈ dup_log ∧
   dict [("a", "RPM"); ("b", "RPM")] !! "a" = Some "RPM" ∧
   dict [("a", "RPM"); ("b", "RPM")] !! "b" = Some "RPM")%string ∧
  series (rename (dict [("a", "RPM"); ("b", "RPM")]%string) dup_log) "RPM"
    = Err Exception.
Proof.
  assert ("a" ≠ "b")%string as H1 by done.
  assert (("a", [Num 1000]) ∈ dup_log)%string as H2 by (left).
  assert (("b", [Num 2000]) ∈ dup_log)%string as H3 by (right; left).
  assert (dict [("a", "RPM"); ("b", "RPM")] !! "a" = Some "RPM")%string
    as H4 by reflexivity.
  assert (dict [("a", "RPM"); ("b", "RPM")] !! "b" = Some "RPM")%string
    as H5 by reflexivity.
  split; [done|].
  apply (duplicate_targets _ dup_log "a" "b" "RPM" [Num 1000] [Num 2000]
           H1 H2 H3 H4 H5).
Defined.

(** With two source columns mapped to [RPM] the renamed log has two [RPM]
    columns, the first from the first source column, and the run ends in an
    error; with only the last of the two mappings it succeeds. *)
Lemma duplicate_mapping_not_last_wins :
  resolve dup_map
    = Ok (dict (zip ["a"; "b"; "map"; "st"; "lt"]
                    ["RPM"; "RPM"; "MAP_mbar"; "STFT"; "LTFT"])%string) ∧
  getitem (rename (dict (zip ["a"; "b"; "map"; "st"; "lt"]
                             ["RPM"; "RPM"; "MAP_mbar"; "STFT"; "LTFT"])%string)
                  dup_log) "RPM"
    = [[Num 1000]; [Num 2000]] ∧
  script example_cfg dup_log dup_map = Err Exception ∧
  ∃ out, script example_cfg dup_log last_map = Ok (Some out).
Proof.
  split_and!; [by vm_compute..|]. eexists. by vm_compute.
Qed.

(** ** The frames the script combines are identically labelled *)

Lemma agg_at_is_Some_filtered cfg (bdf : list BRow) sig f k :
  Forall (filtered cfg) bdf →
  Forall (λ b, numeric_row (row b) = true) bdf →
  is_Some (agg_at f (value_col sig) bdf k) ↔ group bdf k ≠ [].
Proof.
  intros Hb Hn. split.
  - intros [a Ha] Hg. unfold agg_at in Ha. by rewrite Hg in Ha.
  - intros Hg. destruct f.
    + destruct (values_numeric cfg sig (group bdf k)) as (vals & Hv & H2);
        [by apply group_sub..|].
      apply Forall2_length in H2.
      unfold agg_at. destruct (group bdf k) as [|b g]; [done|].
      cbv beta iota. unfold aggregate, mean. rewrite Hv, omap_number_Num.
      destruct vals; [done|eauto].
    + rewrite (count_filtered cfg) by done.
      destruct (group bdf k); [done|eauto].
Qed.

Lemma pivots_aligned cfg (bdf : list BRow) sig sig' f f' :
  Forall (filtered cfg) bdf →
  Forall (λ b, numeric_row (row b) = true) bdf →
  same_axes (pivot_frame f (value_col sig) bdf)
            (pivot_frame f' (value_col sig') bdf).
Proof.
  intros Hb Hn. apply pivot_frame_same_axes. intros k.
  by rewrite !(agg_at_is_Some_filtered cfg).
Qed.

(** In side-by-side mode the two masks the script combines satisfy the
    assumptions of the statements on masks above. *)
Lemma side_by_side_masks_aligned cfg (bdf : list BRow) :
  Forall (filtered cfg) bdf →
  Forall (λ b, numeric_row (row b) = true) bdf →
  let pivot_stft := pivot_frame AggMean (value_col SigSTFT) bdf in
  let pivot_ltft := pivot_frame AggMean (value_col SigLTFT) bdf in
  let count := pivot_frame AggCount (value_col SigSTFT) bdf in
  let mask_stft := (create_trim_heatmap cfg pivot_stft count).2 in
  let mask_ltft := (create_trim_heatmap cfg pivot_ltft count).2 in
  same_axes pivot_stft count ∧ same_axes pivot_ltft count ∧
  same_axes mask_stft mask_ltft ∧
  well_formed mask_stft ∧ well_formed mask_ltft.
Proof.
  intros Hb Hn pivot_stft pivot_ltft count mask_stft mask_ltft.
  assert (same_axes pivot_stft count) as H1 by (by apply (pivots_aligned cfg)).
  assert (same_axes pivot_ltft count) as H2 by (by apply (pivots_aligned cfg)).
  destruct (well_formed_create_trim_heatmap cfg pivot_stft count H1)
    as [W1 A1]; [apply pivot_frame_well_formed..|].
  destruct (well_formed_create_trim_heatmap cfg pivot_ltft count H2)
    as [W2 A2]; [apply pivot_frame_well_formed..|].
  split_and!; try done.
  eapply same_axes_trans; [exact A1|]. by apply same_axes_sym.
Qed.

(** ** Settings and scenarios *)

(** Every bin size the sidebar offers is positive. *)
Lemma config_ok_sizes (c : config) :
  config_ok c → 0 < rpm_bin_size c ∧ 0 < map_bin_size c.
Proof.
  intros (Hr & Hm & _). split.
  - repeat (apply elem_of_cons in Hr as [->|Hr]; [lia|]).
    by apply elem_of_nil in Hr.
  - repeat (apply elem_of_cons in Hm as [->|Hm]; [lia|]).
    by apply elem_of_nil in Hm.
Qed.

(** Five records in one cell with [min_samples = 6]: the mask is false and
    the cell is still in the grid with count 5. *)
Lemma scenario_min_samples_six :
  let cfg := mkConfig 500 50 6 (-50, 50) true ModeTotalTrim in
  let pivot := mkFrame [500] [1000] [[Some (15 # 5)]] in
  let count := mkFrame [500] [1000] [[Some 5%Q]] in
  loc (create_trim_heatmap cfg pivot count).2 (1000, 500) = Some false ∧
  cell_at count (1000, 500) = Some 5%Q.
Proof. by vm_compute. Qed.

(** A row with [RPM = -5] is excluded whatever its other fields. *)
Lemma scenario_negative_rpm (m s l : cell) :
  valid_row (mkRow m (Num (-5)) s l) = false.
Proof.
  unfold valid_row. simpl. by rewrite andb_false_r.
Qed.

(** * Further properties of the script *)

(** ** What the heatmaps show ([where], lines 76 and 94) *)

Lemma cell_at_where (F : Frame (option Q)) (mask : Frame bool) k x :
  same_axes F mask →
  cell_at (where_ F mask) k = Some x ↔
  cell_at F k = Some x ∧ loc mask k = Some true.
Proof.
  intros Hax. unfold cell_at, where_. rewrite (loc_frame_zip _ _ _ _ Hax).
  destruct (loc F k) as [c|], (loc mask k) as [[|]|]; simpl;
    split; try done; try tauto; by intros [? ?].
Qed.

Lemma create_trim_heatmap_axes cfg (pivot_df count_df : Frame (option Q)) :
  same_axes (create_trim_heatmap cfg pivot_df count_df).2 count_df.
Proof.
  unfold create_trim_heatmap. by destruct (trim_range cfg).
Qed.

Lemma create_trim_heatmap_z cfg (pivot_df count_df : Frame (option Q)) :
  (create_trim_heatmap cfg pivot_df count_df).1 =
  where_ pivot_df (create_trim_heatmap cfg pivot_df count_df).2.
Proof.
  unfold create_trim_heatmap. by destruct (trim_range cfg).
Qed.

Lemma mask_true_iff cfg (pivot_df count_df : Frame (option Q)) k :
  same_axes pivot_df count_df →
  loc (create_trim_heatmap cfg pivot_df count_df).2 k = Some true ↔
  ∃ m c, cell_at pivot_df k = Some m ∧ cell_at count_df k = Some c ∧
         (inject_Z (min_samples cfg) <= c)%Q ∧
         (inject_Z (trim_range cfg).1 <= m)%Q ∧
         (m <= inject_Z (trim_range cfg).2)%Q.
Proof.
  intros Hax. rewrite (loc_create_trim_heatmap _ _ _ _ Hax). unfold cell_at.
  split.
  - destruct (loc count_df k) as [[c|]|], (loc pivot_df k) as [[m|]|];
      simpl; try done.
    intros [= H]. apply andb_true_iff in H as [H H3].
    apply andb_true_iff in H as [H1 H2].
    exists m, c. by rewrite <- !Qle_bool_iff.
  - intros (m & c & Hm & Hc & H1 & H2 & H3).
    destruct (loc count_df k) as [[c'|]|]; simplify_eq/=.
    destruct (loc pivot_df k) as [[m'|]|]; simplify_eq/=.
    apply Qle_bool_iff in H1, H2, H3. by rewrite H1, H2, H3.
Qed.

(** X1.  The trim heatmap draws a value at a key exactly when the key's mean is
    that value, the mean lies in the trim range and the key's count reaches
    [min_samples]: no value outside the range and no under-sampled cell is
    ever drawn. *)
Theorem trim_heatmap_shows cfg (pivot_df count_df : Frame (option Q)) k m :
  same_axes pivot_df count_df →
  cell_at (create_trim_heatmap cfg pivot_df count_df).1 k = Some m ↔
  cell_at pivot_df k = Some m ∧
  (inject_Z (trim_range cfg).1 <= m)%Q ∧ (m <= inject_Z (trim_range cfg).2)%Q ∧
  ∃ c, cell_at count_df k = Some c ∧ (inject_Z (min_samples cfg) <= c)%Q.
Proof.
  intros Hax. rewrite create_trim_heatmap_z, cell_at_where.
  - rewrite (mask_true_iff _ _ _ _ Hax). split.
    + intros (Hm & m' & c & Hm' & Hc & H1 & H2 & H3). simplify_eq. eauto 10.
    + intros (Hm & H2 & H3 & c & Hc & H1). eauto 10.
  - eapply same_axes_trans; [exact Hax|].
    apply same_axes_sym, create_trim_heatmap_axes.
Qed.

Lemma trim_heatmap_shows_witness :
  same_axes example_pivot example_count ∧
  cell_at (create_trim_heatmap example_cfg example_pivot example_count).1
          (1000, 500) = Some 3%Q.
Proof.
  assert (same_axes example_pivot example_count) as Hax by (by split).
  split; [exact Hax|].
  apply (trim_heatmap_shows example_cfg example_pivot example_count
           (1000, 500) 3%Q Hax).
  split_and!; [reflexivity|discriminate|discriminate|].
  exists 5%Q. split; [reflexivity|discriminate].
Defined.

(** X2.  The count heatmap of a single-signal view draws a count at a key
    exactly when the trim heatmap draws the key's mean there: both figures
    show the same cells, and every drawn count reaches [min_samples]. *)
Theorem count_heatmap_shows cfg (pivot_df count_df : Frame (option Q)) k c :
  same_axes pivot_df count_df →
  let mask := (create_trim_heatmap cfg pivot_df count_df).2 in
  cell_at (create_count_heatmap count_df mask) k = Some c ↔
  cell_at count_df k = Some c ∧ (inject_Z (min_samples cfg) <= c)%Q ∧
  ∃ m, cell_at (create_trim_heatmap cfg pivot_df count_df).1 k = Some m.
Proof.
  intros Hax mask. subst mask. unfold create_count_heatmap.
  rewrite cell_at_where by apply same_axes_sym, create_trim_heatmap_axes.
  rewrite (mask_true_iff _ _ _ _ Hax). split.
  - intros (Hc & m & c' & Hm & Hc' & H1 & H2 & H3). simplify_eq.
    split_and!; [done..|]. exists m.
    rewrite create_trim_heatmap_z. apply cell_at_where.
    + eapply same_axes_trans; [exact Hax|].
      apply same_axes_sym, create_trim_heatmap_axes.
    + split; [done|]. apply (mask_true_iff _ _ _ _ Hax). eauto 10.
  - intros (Hc & H1 & m & Hm).
    rewrite create_trim_heatmap_z in Hm. apply cell_at_where in Hm as [Hm Ht].
    + apply (mask_true_iff _ _ _ _ Hax) in Ht
        as (m' & c' & Hm' & Hc' & _ & H2 & H3).
      simplify_eq. eauto 10.
    + eapply same_axes_trans; [exact Hax|].
      apply same_axes_sym, create_trim_heatmap_axes.
Qed.

Lemma count_heatmap_shows_witness :
  same_axes example_pivot example_count ∧
  cell_at (create_count_heatmap example_count
             (create_trim_heatmap example_cfg example_pivot example_count).2)
          (1000, 500) = Some 5%Q.
Proof.
  assert (same_axes example_pivot example_count) as Hax by (by split).
  split; [exact Hax|].
  apply (count_heatmap_shows example_cfg example_pivot example_count
           (1000, 500) 5%Q Hax).
  split_and!; [reflexivity|discriminate|]. exists 3%Q. reflexivity.
Defined.

(** X3.  In the side-by-side view the count heatmap is drawn through the
    combined mask: a count is drawn at a key exactly when it reaches
    [min_samples] and at least one of the two trim heatmaps draws a value
    there. *)
Theorem side_by_side_count_shows cfg
    (pivot_stft pivot_ltft count_df : Frame (option Q)) k c :
  same_axes pivot_stft count_df → same_axes pivot_ltft count_df →
  well_formed pivot_stft → well_formed pivot_ltft →
  let fig_stft := (create_trim_heatmap cfg pivot_stft count_df).1 in
  let fig_ltft := (create_trim_heatmap cfg pivot_ltft count_df).1 in
  let mask_stft := (create_trim_heatmap cfg pivot_stft count_df).2 in
  let mask_ltft := (create_trim_heatmap cfg pivot_ltft count_df).2 in
  cell_at (create_count_heatmap count_df (frame_or mask_stft mask_ltft)) k
    = Some c ↔
  cell_at count_df k = Some c ∧ (inject_Z (min_samples cfg) <= c)%Q ∧
  (is_Some (cell_at fig_stft k) ∨ is_Some (cell_at fig_ltft k)).
Proof.
  intros Hs Hl Hws Hwl fs fl ms ml. subst fs fl ms ml.
  pose proof (create_trim_heatmap_axes cfg pivot_stft count_df) as Hms.
  pose proof (create_trim_heatmap_axes cfg pivot_ltft count_df) as Hml.
  assert (same_axes (create_trim_heatmap cfg pivot_stft count_df).2
                    (create_trim_heatmap cfg pivot_ltft count_df).2) as Hmm
    by (eapply same_axes_trans; [exact Hms|by apply same_axes_sym]).
  assert (∀ (P : Frame (option Q)),
            same_axes P count_df →
            ∀ m, cell_at (create_trim_heatmap cfg P count_df).1 k = Some m ↔
                 cell_at P k = Some m ∧
                 loc (create_trim_heatmap cfg P count_df).2 k = Some true)
    as Hz.
  { intros P HP m. rewrite create_trim_heatmap_z. apply cell_at_where.
    eapply same_axes_trans; [exact HP|].
    apply same_axes_sym, create_trim_heatmap_axes. }
  unfold create_count_heatmap. rewrite cell_at_where.
  2:{ unfold frame_or, frame_zip, same_axes. simpl.
      destruct Hms as [-> ->]. done. }
  unfold frame_or. rewrite (loc_frame_zip _ _ _ _ Hmm).
  rewrite (loc_create_trim_heatmap _ _ _ _ Hs),
          (loc_create_trim_heatmap _ _ _ _ Hl).
  assert (is_Some (loc count_df k) → is_Some (loc pivot_stft k) ∧
                                    is_Some (loc pivot_ltft k)) as Hsome.
  { intros [x Hx]. unfold loc in *.
    destruct Hs as [Hi Hc], Hl as [Hi' Hc'].
    destruct (position k.2 (index count_df)) as [i|] eqn:Ei; [|done].
    destruct (position k.1 (columns count_df)) as [j|] eqn:Ej; [|done].
    assert (k.2 ∈ index count_df) by (apply position_is_Some; eauto).
    assert (k.1 ∈ columns count_df) by (apply position_is_Some; eauto).
    split; apply loc_is_Some; try done.
    - by rewrite Hi, Hc.
    - by rewrite Hi', Hc'. }
  split.
  - intros [Hc Hor].
    destruct (loc count_df k) as [cc|] eqn:Ec; [|done].
    destruct (Hsome ltac:(eauto)) as [[ps Hps] [pl Hpl]].
    rewrite Hps, Hpl in Hor. simpl in Hor.
    unfold cell_at in Hc. rewrite Ec in Hc. simpl in Hc. subst cc.
    injection Hor as Hor. apply orb_true_iff in Hor.
    assert (Qle_bool (inject_Z (min_samples cfg)) c = true) as Hms'.
    { destruct Hor as [Hor|Hor]; [destruct ps|destruct pl]; try done;
        apply andb_true_iff in Hor as [Hor _];
        by apply andb_true_iff in Hor as [Hor _]. }
    split_and!.
    + unfold cell_at. by rewrite Ec.
    + by apply Qle_bool_iff.
    + destruct Hor as [Hor|Hor]; [left; destruct ps as [m|]
                                 |right; destruct pl as [m|]]; try done;
        exists m; apply Hz; try done;
        (split; [unfold cell_at; by rewrite ?Hps, ?Hpl|]).
      * rewrite (loc_create_trim_heatmap _ _ _ _ Hs), Ec, Hps. simpl.
        by rewrite Hor.
      * rewrite (loc_create_trim_heatmap _ _ _ _ Hl), Ec, Hpl. simpl.
        by rewrite Hor.
  - intros (Hc & Hmin & Hor). split; [done|].
    unfold cell_at in Hc.
    destruct (loc count_df k) as [cc|] eqn:Ec; [|done]. simpl in Hc. subst cc.
    destruct (Hsome ltac:(eauto)) as [[ps Hps] [pl Hpl]].
    rewrite Hps, Hpl. simpl. f_equal. apply orb_true_iff.
    destruct Hor as [[m Hm]|[m Hm]]; [left|right];
      apply Hz in Hm as [_ Hm]; try done.
    + rewrite (loc_create_trim_heatmap _ _ _ _ Hs), Ec, Hps in Hm.
      simpl in Hm. by injection Hm.
    + rewrite (loc_create_trim_heatmap _ _ _ _ Hl), Ec, Hpl in Hm.
      simpl in Hm. by injection Hm.
Qed.

Lemma side_by_side_count_shows_witness :
  (same_axes example_pivot example_count ∧ well_formed example_pivot) ∧
  cell_at (create_count_heatmap example_count
             (frame_or
                (create_trim_heatmap example_cfg example_pivot example_count).2
                (create_trim_heatmap example_cfg example_pivot example_count).2))
          (1000, 500) = Some 5%Q.
Proof.
  assert (same_axes example_pivot example_count) as Hax by (by split).
  assert (well_formed example_pivot) as Hwf
    by (split; [reflexivity|repeat constructor]).
  split; [by split|].
  apply (side_by_side_count_shows example_cfg example_pivot example_pivot
           example_count (1000, 500) 5%Q Hax Hax Hwf Hwf).
  split_and!; [reflexivity|discriminate|]. left. by exists 3%Q.
Defined.

(** X4.  Tightening the settings never adds a cell: a key that is valid under a
    larger [min_samples] and a narrower trim range is valid under the
    looser settings too. *)
Theorem mask_antitone cfg cfg' (pivot_df count_df : Frame (option Q)) k :
  same_axes pivot_df count_df →
  min_samples cfg ≤ min_samples cfg' →
  (trim_range cfg).1 ≤ (trim_range cfg').1 →
  (trim_range cfg').2 ≤ (trim_range cfg).2 →
  loc (create_trim_heatmap cfg' pivot_df count_df).2 k = Some true →
  loc (create_trim_heatmap cfg pivot_df count_df).2 k = Some true.
Proof.
  intros Hax Hn Hlo Hhi. rewrite !(mask_true_iff _ _ _ _ Hax).
  intros (m & c & Hm & Hc & H1 & H2 & H3). exists m, c.
  rewrite Zle_Qle in Hn, Hlo, Hhi.
  split_and!; try done.
  - by eapply Qle_trans.
  - by eapply Qle_trans.
  - by eapply Qle_trans.
Qed.

Lemma mask_antitone_witness :
  loc (create_trim_heatmap example_cfg example_pivot example_count).2
      (1000, 500) = Some true.
Proof.
  apply (mask_antitone example_cfg
           (mkConfig 500 50 5 (0, 10) true ModeTotalTrim)
           example_pivot example_count (1000, 500)).
  - by split.
  - simpl. lia.
  - simpl. lia.
  - simpl. lia.
  - reflexivity.
Defined.

(** ** The time series (lines 111-128) *)



(** ** The filter applied twice (lines 57-58) *)

Lemma valid_row_no_text r : valid_row r = true → text_key r = false.
Proof.
  unfold valid_row, text_key. rewrite !andb_true_iff.
  intros [[_ Hm] Hr].
  destruct (MAP_mbar r), (RPM r); done.
Qed.

Lemma record_filter_fixed (df : list Row) :
  Forall (λ r, valid_row r = true) df → record_filter df = Ok df.
Proof.
  intros Hv. rewrite record_filter_eq.
  assert (existsb text_key (dropna df) = false) as ->.
  { unfold dropna. induction Hv as [|r l Hr _ IH]; [done|].
    simpl. destruct (complete r); [|exact IH].
    simpl. rewrite (valid_row_no_text _ Hr). exact IH. }
  f_equal. induction Hv as [|r l Hr _ IH]; [done|].
  simpl. rewrite Hr. by f_equal.
Qed.

(** X6.  The Record Filter is idempotent: a table it returns consists of valid
    rows only, and filtering that table again returns it unchanged, without
    error. *)
Theorem record_filter_idempotent (rows df : list Row) :
  record_filter rows = Ok df →
  record_filter df = Ok df ∧ Forall (λ r, valid_row r = true) df.
Proof.
  intros Hf. pose proof (record_filter_valid _ _ Hf) as Hv.
  split; [by apply record_filter_fixed|done].
Qed.

Lemma record_filter_idempotent_witness :
  record_filter example_rows = Ok example_df ∧
  record_filter example_df = Ok example_df.
Proof.
  assert (record_filter example_rows = Ok example_df) as Hf
    by (by vm_compute).
  split; [exact Hf|].
  exact (proj1 (record_filter_idempotent example_rows example_df Hf)).
Defined.

(** ** Reading the renamed log (lines 56-62) *)

Lemma rows_cases (df : DataFrame) :
  (rows df = Err Exception ∧
   ¬ Forall (λ c, length (getitem df c) = 1%nat) REQUIRED_COLUMNS) ∨
  ((∃ raw, rows df = Ok raw) ∧
   Forall (λ c, length (getitem df c) = 1%nat) REQUIRED_COLUMNS).
Proof.
  unfold rows, series, REQUIRED_COLUMNS. rewrite !Forall_cons.
  destruct (getitem df "MAP_mbar") as [|? [|? ?]];
    try (left; split; [done|by intros (? & ? & ? & ? & _)]);
  destruct (getitem df "RPM") as [|? [|? ?]];
    try (left; split; [done|by intros (? & ? & ? & ? & _)]);
  destruct (getitem df "STFT") as [|? [|? ?]];
    try (left; split; [done|by intros (? & ? & ? & ? & _)]);
  destruct (getitem df "LTFT") as [|? [|? ?]];
    try (left; split; [done|by intros (? & ? & ? & ? & _)]).
  right. split; [by eexists|]. by repeat split.
Qed.

(** X7.  Once the mapping is accepted, the renamed log can be read exactly when
    each of the four required labels names one and only one of its columns.
    A required label that names no column, or several, ends the run with
    the generic error, whatever the settings. *)
Theorem log_readable cfg (df_log : DataFrame) (df_map : MapFrame)
    (m : gmap string string) :
  resolve df_map = Ok m →
  ((∃ raw, rows (rename m df_log) = Ok raw) ↔
   Forall (λ c, length (getitem (rename m df_log) c) = 1%nat)
          REQUIRED_COLUMNS) ∧
  (¬ Forall (λ c, length (getitem (rename m df_log) c) = 1%nat)
            REQUIRED_COLUMNS →
   script cfg df_log df_map = Err Exception) ∧
  (∀ c, c ∈ REQUIRED_COLUMNS → c ∉ (rename m df_log).*1 →
        script cfg df_log df_map = Err Exception).
Proof.
  intros Hres.
  assert (¬ Forall (λ c, length (getitem (rename m df_log) c) = 1%nat)
            REQUIRED_COLUMNS →
          script cfg df_log df_map = Err Exception) as Hscript.
  { intros Hn. unfold script. rewrite Hres. simpl.
    destruct (rows_cases (rename m df_log)) as [[-> _]|[_ ?]]; done. }
  split_and!.
  - destruct (rows_cases (rename m df_log)) as [[E Hn]|[E Hall]].
    + split; [|done]. intros [raw Hraw]. by rewrite E in Hraw.
    + done.
  - exact Hscript.
  - intros c Hc Hnot. apply Hscript. intros Hall.
    rewrite Forall_forall in Hall. specialize (Hall c Hc).
    apply getitem_nil in Hnot. by rewrite Hnot in Hall.
Qed.

Lemma log_readable_witness :
  resolve last_map
    = Ok (dict (zip ["b"; "map"; "st"; "lt"]
                    ["RPM"; "MAP_mbar"; "STFT"; "LTFT"])%string) ∧
  script example_cfg [("b", [Num 2000]); ("map", [Num 500]);
                      ("st", [Num 2])]%string last_map
    = Err Exception.
Proof.
  assert (resolve last_map
            = Ok (dict (zip ["b"; "map"; "st"; "lt"]
                            ["RPM"; "MAP_mbar"; "STFT"; "LTFT"])%string))
    as Hres by (by vm_compute).
  split; [exact Hres|].
  destruct (log_readable example_cfg
              [("b", [Num 2000]); ("map", [Num 500]); ("st", [Num 2])]%string
              last_map _ Hres) as (_ & _ & Hmiss).
  apply (Hmiss "LTFT"%string).
  - unfold REQUIRED_COLUMNS. do 3 right. left.
  - apply (bool_decide_unpack _). by vm_compute.
Defined.

(** ** Renaming (line 56) *)

Lemma rename_lookup (m : gmap string string) (df : DataFrame) i label data :
  df !! i = Some (label, data) →
  rename m df !! i = Some (default label (m !! label), data).
Proof.
  unfold rename. revert i.
  induction df as [|[a d] df IH]; intros [|i] Hi; simplify_eq/=; [done|].
  by apply IH.
Qed.

(** X8.  Renaming changes labels only: the columns keep their number, order and
    data; a label that is no key of the mapping is left as it is; mapping
    entries for columns the log does not have are ignored; and the empty
    mapping changes nothing. *)
Theorem rename_spec (m : gmap string string) (df : DataFrame) :
  (rename m df).*2 = df.*2 ∧
  length (rename m df) = length df ∧
  (∀ i label data,
     df !! i = Some (label, data) →
     rename m df !! i = Some (default label (m !! label), data)) ∧
  (∀ i label data,
     df !! i = Some (label, data) → m !! label = None →
     rename m df !! i = Some (label, data)) ∧
  (∀ m' : gmap string string,
     (∀ label, label ∈ df.*1 → m !! label = m' !! label) →
     rename m df = rename m' df) ∧
  rename ∅ df = df.
Proof.
  split_and!.
  - unfold rename. induction df as [|[a d] df IH]; [done|].
    simpl. f_equal. exact IH.
  - unfold rename. by rewrite length_map.
  - apply rename_lookup.
  - intros i label data Hi Hm. rewrite (rename_lookup _ _ _ _ _ Hi), Hm. done.
  - intros m' Hagree. unfold rename.
    induction df as [|[a d] df IH]; [done|].
    simpl. f_equal.
    + rewrite (Hagree a); [done|]. simpl. left.
    + apply IH. intros label Hlabel. apply Hagree. simpl. by right.
  - unfold rename. induction df as [|[a d] df IH]; [done|].
    simpl. rewrite lookup_empty. simpl. f_equal. exact IH.
Qed.

(** ** The column mapping (lines 50-54) *)

Lemma foldl_insert_lookup (l : list (string * string))
    (m : gmap string string) (k : string) :
  foldl (λ m kv, <[kv.1 := kv.2]> m) m l !! k =
  match last (filter (λ kv, kv.1 = k) l) with
  | Some kv => Some kv.2
  | None => m !! k
  end.
Proof.
  induction l as [|x l IH] using rev_ind; [done|].
  rewrite foldl_app, filter_app. simpl.
  destruct (decide (x.1 = k)) as [E|E].
  - rewrite (filter_cons_True (λ kv, kv.1 = k)) by done.
    rewrite filter_nil, last_snoc, E. by rewrite lookup_insert_eq.
  - rewrite (filter_cons_False (λ kv, kv.1 = k)) by done.
    rewrite filter_nil, app_nil_r. by rewrite lookup_insert_ne.
Qed.

Lemma dict_lookup_elem (l : list (string * string)) (k v : string) :
  dict l !! k = Some v → (k, v) ∈ l.
Proof.
  unfold dict. rewrite foldl_insert_lookup, lookup_empty.
  destruct (last _) as [[k' v']|] eqn:E; [|done].
  intros [= <-]. apply last_Some_elem_of in E.
  apply list_elem_of_filter in E as [E ?]. simpl in E. by subst.
Qed.

(** X9.  The mapping built from the table sends a source column to the target
    of the last row that names it, has no entry for a column that no row
    names, and every entry it has is a row of the table. *)
Theorem dict_lookup (l : list (string * string)) (k : string) :
  dict l !! k = snd <$> last (filter (λ kv, kv.1 = k) l) ∧
  (dict l !! k = None ↔ k ∉ l.*1) ∧
  (∀ v, dict l !! k = Some v → (k, v) ∈ l).
Proof.
  assert (dict l !! k = snd <$> last (filter (λ kv, kv.1 = k) l)) as Hd.
  { unfold dict. rewrite foldl_insert_lookup, lookup_empty.
    by destruct (last _). }
  split_and!; [done| |apply dict_lookup_elem].
  rewrite Hd, fmap_None, last_None. rewrite <- (getitem_nil l k).
  unfold getitem. split; [by intros ->|apply fmap_nil_inv].
Qed.

(** X10.  When the mapping table is accepted, the mapping is the one built from
    its two columns, and each of the four required fields is the target of
    some row of the table. *)
Theorem resolve_success (df_map : MapFrame) (m : gmap string string) :
  resolve df_map = Ok m →
  ∃ original new,
    head (getitem df_map "original") = Some original ∧
    head (getitem df_map "new") = Some new ∧
    m = dict (zip original new) ∧
    missing_columns m = [] ∧
    ∀ c, c ∈ REQUIRED_COLUMNS →
         ∃ k i, m !! k = Some c ∧
                original !! i = Some k ∧ new !! i = Some c.
Proof.
  rewrite resolve_spec.
  destruct (head (getitem df_map "original")) as [original|]; [|done].
  destruct (head (getitem df_map "new")) as [new|]; [|done].
  destruct (missing_columns (dict (zip original new))) as [|? ?] eqn:E;
    [|done].
  intros [= <-]. exists original, new. split_and!; try done.
  intros c Hc.
  destruct (decide (c ∈ dict_values (dict (zip original new)))) as [Hin|Hout].
  - apply elem_of_dict_values in Hin as [k Hk]. exists k.
    pose proof (dict_lookup_elem _ _ _ Hk) as Hel.
    apply list_elem_of_lookup in Hel as [i Hi].
    apply lookup_zip_with_Some in Hi as (x & y & [= -> ->] & Hx & Hy).
    by exists i.
  - exfalso.
    assert (c ∈ missing_columns (dict (zip original new))) as Hm.
    { apply elem_of_missing_columns. split; [done|].
      by rewrite <- elem_of_dict_values. }
    rewrite E in Hm. by apply elem_of_nil in Hm.
Qed.

Lemma resolve_success_witness :
  resolve last_map
    = Ok (dict (zip ["b"; "map"; "st"; "lt"]
                    ["RPM"; "MAP_mbar"; "STFT"; "LTFT"])%string) ∧
  missing_columns (dict (zip ["b"; "map"; "st"; "lt"]
                             ["RPM"; "MAP_mbar"; "STFT"; "LTFT"])%string) = [].
Proof.
  assert (resolve last_map
            = Ok (dict (zip ["b"; "map"; "st"; "lt"]
                            ["RPM"; "MAP_mbar"; "STFT"; "LTFT"])%string))
    as Hres by (by vm_compute).
  split; [exact Hres|].
  destruct (resolve_success last_map _ Hres) as (? & ? & _ & _ & _ & Hm & _).
  exact Hm.
Defined.

(** ** Bin labels (lines 60-61) *)

Lemma inject_Z_pos (size : Z) : 0 < size → (0 < inject_Z size)%Q.
Proof. intros H. change (inject_Z 0 < inject_Z size)%Q. by rewrite <- Zlt_Qlt. Qed.

(** X11.  Binning keeps the order of the values: a larger value never gets a
    smaller label. *)
Theorem bin_monotone (v w : Q) (size : Z) :
  0 < size → (v <= w)%Q → bin v size ≤ bin w size.
Proof.
  intros Hs Hvw. unfold bin. apply Z.mul_le_mono_nonneg_r; [lia|].
  apply Qfloor_resp_le. unfold Qdiv. apply Qmult_le_compat_r; [done|].
  apply Qinv_le_0_compat, Qlt_le_weak, inject_Z_pos, Hs.
Qed.

Lemma bin_monotone_witness :
  bin (inject_Z 999) 500 ≤ bin (inject_Z 1000) 500.
Proof.
  apply (bin_monotone (inject_Z 999) (inject_Z 1000) 500); [lia|discriminate].
Defined.

(** X12.  A bin label is the lower edge of its bin: a multiple of the bin size,
    at most the value and less than one bin size below it, never negative
    for a value that is not negative, and its own label when binned again. *)
Theorem bin_label (v : Q) (size : Z) :
  0 < size →
  (size | bin v size) ∧
  (inject_Z (bin v size) <= v)%Q ∧
  (v < inject_Z (bin v size + size))%Q ∧
  ((0 <= v)%Q → 0 ≤ bin v size) ∧
  bin (inject_Z (bin v size)) size = bin v size.
Proof.
  intros Hs.
  destruct (proj1 (bin_spec v size (Qfloor (v / inject_Z size)) Hs) eq_refl)
    as [Hlo Hhi].
  split_and!.
  - unfold bin. by apply Z.divide_factor_r.
  - exact Hlo.
  - unfold bin.
    by replace (Qfloor (v / inject_Z size) * size + size)
      with ((Qfloor (v / inject_Z size) + 1) * size) by lia.
  - intros Hv. unfold bin. apply Z.mul_nonneg_nonneg; [|lia].
    change 0 with (Qfloor 0). apply Qfloor_resp_le.
    apply Qle_shift_div_l; [by apply inject_Z_pos|].
    by rewrite Qmult_0_l.
  - rewrite bin_inject_Z by done. unfold bin.
    by rewrite Z.div_mul by lia.
Qed.

Lemma bin_label_witness :
  0 < 500 ∧ bin (inject_Z (bin (1234 # 1) 500)) 500 = bin (1234 # 1) 500.
Proof.
  split; [lia|].
  exact (proj2 (proj2 (proj2 (proj2 (bin_label (1234 # 1) 500 ltac:(lia)))))).
Defined.

(** X13.  A record whose [RPM] and [MAP_mbar] are positive finite numbers
    gets a bin key when it is binned: the key is made of the floor multiples
    of the two values, and with the bin sizes the sidebar offers both labels
    are non-negative multiples of their bin size. *)
Theorem positive_record_key cfg (r : Row) (v m : Q) (b : BRow) :
  config_ok cfg →
  RPM r = Num v → MAP_mbar r = Num m → (0 < v)%Q → (0 < m)%Q →
  assign_row cfg r = Ok b →
  key_of b = Some (bin v (rpm_bin_size cfg), bin m (map_bin_size cfg)) ∧
  0 ≤ bin v (rpm_bin_size cfg) ∧ 0 ≤ bin m (map_bin_size cfg) ∧
  (rpm_bin_size cfg | bin v (rpm_bin_size cfg)) ∧
  (map_bin_size cfg | bin m (map_bin_size cfg)).
Proof.
  intros Hcfg Hv Hm Hv0 Hm0 Hb.
  destruct (config_ok_sizes _ Hcfg) as [Hrs Hms].
  split_and!.
  - unfold assign_row in Hb. rewrite Hv, Hm in Hb. simpl in Hb.
    destruct (add_cell (STFT r) (LTFT r)) as [tt|e]; simpl in Hb; [|done].
    by injection Hb as <-.
  - apply Z.mul_nonneg_nonneg; [|lia].
    change 0 with (Qfloor 0). apply Qfloor_resp_le.
    apply Qle_shift_div_l; [by apply inject_Z_pos|].
    rewrite Qmult_0_l. by apply Qlt_le_weak.
  - apply Z.mul_nonneg_nonneg; [|lia].
    change 0 with (Qfloor 0). apply Qfloor_resp_le.
    apply Qle_shift_div_l; [by apply inject_Z_pos|].
    rewrite Qmult_0_l. by apply Qlt_le_weak.
  - by apply Z.divide_factor_r.
  - by apply Z.divide_factor_r.
Qed.

Lemma positive_record_key_witness :
  config_ok example_cfg ∧
  assign_row example_cfg (mkRow (Num 530) (Num 1499) (Num 2) (Num 1))
    = Ok (mkBRow (mkRow (Num 530) (Num 1499) (Num 2) (Num 1))
                 (Some 1000) (Some 500) (Num (2 + 1))) ∧
  key_of (mkBRow (mkRow (Num 530) (Num 1499) (Num 2) (Num 1))
                 (Some 1000) (Some 500) (Num (2 + 1)))
    = Some (bin 1499 500, bin 530 50).
Proof.
  assert (config_ok example_cfg) as Hc.
  { unfold config_ok, example_cfg. simpl.
    split_and!; try lia; [right; left|right; left]. }
  assert (assign_row example_cfg (mkRow (Num 530) (Num 1499) (Num 2) (Num 1))
          = Ok (mkBRow (mkRow (Num 530) (Num 1499) (Num 2) (Num 1))
                       (Some 1000) (Some 500) (Num (2 + 1)))) as Hb
    by reflexivity.
  split_and!; [exact Hc|exact Hb|].
  exact (proj1 (positive_record_key example_cfg
                  (mkRow (Num 530) (Num 1499) (Num 2) (Num 1)) 1499 530 _ Hc
                  eq_refl eq_refl eq_refl eq_refl Hb)).
Defined.

(** ** The axes of the pivot tables (lines 133-134, 144-146) *)

Lemma insert_sorted_sorted x l :
  StronglySorted Z.lt l → StronglySorted Z.lt (insert_sorted x l).
Proof.
  induction 1 as [|y l Hl IH Hy]; simpl; [repeat constructor|].
  destruct (x <? y) eqn:E1; [|destruct (x =? y) eqn:E2].
  - apply Z.ltb_lt in E1. constructor; [by constructor|].
    constructor; [done|]. eapply Forall_impl; [exact Hy|]. simpl. lia.
  - by constructor.
  - apply Z.ltb_ge in E1. apply Z.eqb_neq in E2.
    constructor; [exact IH|].
    apply Forall_forall. intros z Hz.
    apply elem_of_insert_sorted in Hz as [->|Hz]; [lia|].
    rewrite Forall_forall in Hy. by apply Hy.
Qed.

Lemma unique_sorted_sorted l : StronglySorted Z.lt (unique_sorted l).
Proof.
  unfold unique_sorted. induction l as [|x l IH]; simpl; [constructor|].
  by apply insert_sorted_sorted.
Qed.

Lemma sorted_NoDup (l : list Z) : StronglySorted Z.lt l → NoDup l.
Proof.
  induction 1 as [|y l Hl IH Hy]; [constructor|].
  constructor; [|done]. intros Hin.
  rewrite Forall_forall in Hy. specialize (Hy _ Hin). lia.
Qed.

Lemma group_not_nil (df : list BRow) k :
  group df k ≠ [] ↔ ∃ b, b ∈ df ∧ key_of b = Some k.
Proof.
  unfold group. split.
  - intros Hne. destruct (filter _ df) as [|b g] eqn:E; [done|].
    exists b. apply and_comm.
    apply (list_elem_of_filter (λ r, key_of r = Some k)).
    rewrite E. left.
  - intros (b & Hb & Hk) E.
    assert (b ∈ filter (λ r, key_of r = Some k) df) as Hin
      by (by apply list_elem_of_filter).
    rewrite E in Hin. by apply elem_of_nil in Hin.
Qed.

Lemma elem_of_pivot_axes f value (df : list BRow) :
  (∀ i, i ∈ index (pivot_frame f value df) ↔
        ∃ j, is_Some (agg_at f value df (j, i))) ∧
  (∀ j, j ∈ columns (pivot_frame f value df) ↔
        ∃ i, is_Some (agg_at f value df (j, i))).
Proof.
  unfold pivot_frame. simpl. split.
  - intros i. rewrite elem_of_unique_sorted, list_elem_of_fmap. split.
    + intros ([j i'] & -> & Hk). exists j. by apply elem_of_kept.
    + intros [j Hj]. exists (j, i). split; [done|]. by apply elem_of_kept.
  - intros j. rewrite elem_of_unique_sorted, list_elem_of_fmap. split.
    + intros ([j' i] & -> & Hk). exists i. by apply elem_of_kept.
    + intros [i Hi]. exists (j, i). split; [done|]. by apply elem_of_kept.
Qed.

Lemma agg_at_count value (bdf : list BRow) k :
  agg_at AggCount value bdf k =
  match group bdf k with
  | [] => None
  | g => Some (inject_Z (Z.of_nat (length (List.filter notna (value <$> g)))))
  end.
Proof. unfold agg_at, aggregate, count. by destruct (group bdf k). Qed.

Lemma agg_at_count_is_Some value (bdf : list BRow) k :
  is_Some (agg_at AggCount value bdf k) ↔ ∃ b, b ∈ bdf ∧ key_of b = Some k.
Proof.
  rewrite agg_at_count, <- group_not_nil.
  destruct (group bdf k); split; try done; by intros [? ?].
Qed.

(** X14.  The axes of every pivot grid are strictly increasing, so no label is
    listed twice, and the grid is rectangular.  The labels of a count grid
    are exactly the bin labels of the records that have both bin labels: a
    record with a missing bin label adds no row and no column.  A mean grid
    has no label the count grid lacks. *)
Theorem pivot_axes (bdf : list BRow) sig f :
  let F := pivot_frame f (value_col sig) bdf in
  let C := pivot_frame AggCount (value_col sig) bdf in
  StronglySorted Z.lt (index F) ∧ StronglySorted Z.lt (columns F) ∧
  NoDup (index F) ∧ NoDup (columns F) ∧
  well_formed F ∧
  (∀ i, i ∈ index C ↔ ∃ b j, b ∈ bdf ∧ key_of b = Some (j, i)) ∧
  (∀ j, j ∈ columns C ↔ ∃ b i, b ∈ bdf ∧ key_of b = Some (j, i)) ∧
  (∀ i, i ∈ index F → i ∈ index C) ∧
  (∀ j, j ∈ columns F → j ∈ columns C).
Proof.
  intros F C. subst F C.
  destruct (elem_of_pivot_axes f (value_col sig) bdf) as [Hi Hj].
  destruct (elem_of_pivot_axes AggCount (value_col sig) bdf) as [Hci Hcj].
  assert (∀ k, is_Some (agg_at f (value_col sig) bdf k) →
               is_Some (agg_at AggCount (value_col sig) bdf k)) as Hsub.
  { intros k Hk. apply agg_at_count_is_Some, group_not_nil.
    apply agg_at_Some_keys in Hk. intros E. by apply group_nil in E. }
  split_and!.
  - apply unique_sorted_sorted.
  - apply unique_sorted_sorted.
  - apply sorted_NoDup, unique_sorted_sorted.
  - apply sorted_NoDup, unique_sorted_sorted.
  - apply pivot_frame_well_formed.
  - intros i. rewrite Hci. split.
    + intros [j Hs]. apply agg_at_count_is_Some in Hs as (b & Hb & Hk). eauto.
    + intros (b & j & Hb & Hk). exists j. apply agg_at_count_is_Some. eauto.
  - intros j. rewrite Hcj. split.
    + intros [i Hs]. apply agg_at_count_is_Some in Hs as (b & Hb & Hk). eauto.
    + intros (b & i & Hb & Hk). exists i. apply agg_at_count_is_Some. eauto.
  - intros i. rewrite Hi, Hci. intros [j Hs]. eauto.
  - intros j. rewrite Hj, Hcj. intros [i Hs]. eauto.
Qed.

Lemma example_bdf_filtered :
  Forall (filtered example_cfg) example_bdf ∧
  Forall (λ b, numeric_row (row b) = true) example_bdf.
Proof.
  destruct example_filtered as [Hf Ha].
  destruct (assign_filtered _ _ _ _ Hf Ha) as [H1 H2]. split; [done|].
  apply (Forall_fmap row (λ r, numeric_row r = true)).
  rewrite H2. apply example_numeric.
Qed.

(** ** Every record is counted once (lines 134, 146) *)

Lemma sum_list_with_add {A} (f g : A → nat) (l : list A) :
  sum_list_with (λ x, f x + g x)%nat l =
  (sum_list_with f l + sum_list_with g l)%nat.
Proof. induction l as [|x l IH]; simpl; [done|]. rewrite IH. lia. Qed.

Lemma sum_list_with_ext {A} (f g : A → nat) (l : list A) :
  (∀ x, x ∈ l → f x = g x) → sum_list_with f l = sum_list_with g l.
Proof.
  induction l as [|x l IH]; simpl; [done|]. intros H.
  rewrite (H x) by left. rewrite IH; [done|]. intros y Hy. apply H. by right.
Qed.

Lemma sum_list_with_zero {A} (l : list A) : sum_list_with (λ _, 0%nat) l = 0%nat.
Proof. induction l as [|x l IH]; simpl; [done|]. by rewrite IH. Qed.

Lemma sum_list_with_delta (l : list Z) (x : Z) :
  NoDup l → x ∈ l →
  sum_list_with (λ y, if decide (y = x) then 1%nat else 0%nat) l = 1%nat.
Proof.
  induction 1 as [|y l Hy Hl IH]; [by intros ?%elem_of_nil|].
  intros Hx. simpl. destruct (decide (y = x)) as [->|Hne].
  - rewrite (sum_list_with_ext _ (λ _, 0%nat)).
    + by rewrite sum_list_with_zero.
    + intros z Hz. destruct (decide (z = x)) as [->|]; done.
  - apply elem_of_cons in Hx as [->|Hx]; [done|]. by rewrite IH.
Qed.

Lemma groups_partition (df : list BRow) (idx cols : list Z) :
  NoDup idx → NoDup cols →
  (∀ b, b ∈ df → ∃ j i, key_of b = Some (j, i) ∧ i ∈ idx ∧ j ∈ cols) →
  sum_list_with (λ i, sum_list_with (λ j, length (group df (j, i))) cols) idx
  = length df.
Proof.
  intros Hidx Hcols. induction df as [|b df IH]; intros Hcov.
  - simpl. rewrite (sum_list_with_ext _ (λ _, 0%nat)).
    + apply sum_list_with_zero.
    + intros i _. apply sum_list_with_zero.
  - destruct (Hcov b ltac:(left)) as (j0 & i0 & Hk & Hi0 & Hj0).
    rewrite (sum_list_with_ext _
      (λ i, (if decide (i = i0) then 1 else 0) +
            sum_list_with (λ j, length (group df (j, i))) cols)%nat).
    + rewrite sum_list_with_add, (sum_list_with_delta _ _ Hidx Hi0).
      rewrite IH; [done|]. intros b' Hb'. apply Hcov. by right.
    + intros i _.
      rewrite (sum_list_with_ext _
        (λ j, (if decide (i = i0) then if decide (j = j0) then 1 else 0 else 0)
              + length (group df (j, i)))%nat).
      * rewrite sum_list_with_add. f_equal.
        destruct (decide (i = i0)) as [->|Hne].
        -- by apply sum_list_with_delta.
        -- apply sum_list_with_zero.
      * intros j _. unfold group. rewrite filter_cons, Hk.
        destruct (decide (i = i0)) as [->|Hi];
          [destruct (decide (j = j0)) as [->|Hj]|].
        -- by rewrite decide_True.
        -- by rewrite decide_False by congruence.
        -- by rewrite decide_False by congruence.
Qed.

Lemma count_group_counted value (bdf : list BRow) k :
  length (List.filter notna (value <$> group bdf k)) =
  length (group (List.filter (counted value) bdf) k).
Proof.
  unfold group. induction bdf as [|b bdf IH]; [done|].
  rewrite filter_cons. cbn [List.filter]. unfold counted at 1.
  destruct (decide (key_of b = Some k)) as [E|E].
  - rewrite E, fmap_cons. cbn [List.filter].
    destruct (notna (value b)).
    + rewrite filter_cons, decide_True by done. simpl. by rewrite IH.
    + exact IH.
  - destruct (key_of b) as [k'|] eqn:Ek; [|exact IH].
    destruct (notna (value b)); [|exact IH].
    rewrite filter_cons, decide_False by (by rewrite Ek). exact IH.
Qed.

Lemma default_count value (bdf : list BRow) k :
  default 0%Q (agg_at AggCount value bdf k) =
  inject_Z (Z.of_nat (length (group (List.filter (counted value) bdf) k))).
Proof.
  rewrite agg_at_count, <- count_group_counted.
  by destruct (group bdf k).
Qed.

Lemma Qsum_count_row value (bdf : list BRow) (cols : list Z) (i : Z) :
  (Qsum (map (default 0%Q)
             (map (λ j, agg_at AggCount value bdf (j, i)) cols))
   == inject_Z (Z.of_nat
        (sum_list_with
           (λ j, length (group (List.filter (counted value) bdf) (j, i)))
           cols)))%Q.
Proof.
  induction cols as [|j cols IH]; [done|].
  cbn [map Qsum foldr sum_list_with]. fold (Qsum (map (default 0%Q)
    (map (λ j, agg_at AggCount value bdf (j, i)) cols))).
  rewrite IH, Nat2Z.inj_add, inject_Z_plus, default_count. reflexivity.
Qed.

Lemma frame_sum_count value (bdf : list BRow) :
  let C := pivot_frame AggCount value bdf in
  (frame_sum C
   == inject_Z (Z.of_nat
        (sum_list_with
           (λ i, sum_list_with
                   (λ j, length (group (List.filter (counted value) bdf) (j, i)))
                   (columns C))
           (index C))))%Q.
Proof.
  intros C. unfold frame_sum. subst C. unfold pivot_frame.
  cbn [values index columns].
  generalize (unique_sorted (kept AggCount value bdf).*1) as cols.
  generalize (unique_sorted (kept AggCount value bdf).*2) as idx.
  intros idx cols. induction idx as [|i idx IH]; [done|].
  cbn [map Qsum foldr sum_list_with].
  fold (Qsum (map (λ r, Qsum (map (default 0%Q) r))
    (map (λ i, map (λ j, agg_at AggCount value bdf (j, i)) cols) idx))).
  rewrite IH, Qsum_count_row, Nat2Z.inj_add, inject_Z_plus.
  reflexivity.
Qed.

Lemma filter_all {A} (f : A → bool) (l : list A) :
  Forall (λ a, f a = true) l → List.filter f l = l.
Proof.
  induction 1 as [|a l Ha _ IH]; [done|]. simpl. rewrite Ha. by f_equal.
Qed.

(** X15.  The entries of a count grid add up to the number of records that
    have both bin labels and a value in the counted column: each such record
    is counted in exactly one cell, and a record with a missing bin label or
    a missing value is counted in none.  When every record has both labels
    and a value, the entries add up to the number of records. *)
Theorem count_total (bdf : list BRow) sig :
  ∃ C, pivot_table bdf sig AggCount = Ok C ∧
       (frame_sum C
        == inject_Z (Z.of_nat
             (length (List.filter (counted (value_col sig)) bdf))))%Q ∧
       (Forall (λ b, counted (value_col sig) b = true) bdf →
        (frame_sum C == inject_Z (Z.of_nat (length bdf)))%Q).
Proof.
  eexists. split; [reflexivity|].
  assert (frame_sum (pivot_frame AggCount (value_col sig) bdf)
          == inject_Z (Z.of_nat
               (length (List.filter (counted (value_col sig)) bdf))))%Q as Hsum.
  { rewrite frame_sum_count, groups_partition; [reflexivity|..].
    - apply sorted_NoDup, unique_sorted_sorted.
    - apply sorted_NoDup, unique_sorted_sorted.
    - intros b Hb. apply list_elem_of_In, filter_In in Hb as [Hb Hc].
      apply list_elem_of_In in Hb. unfold counted in Hc.
      destruct (key_of b) as [[j i]|] eqn:Hk; [|done].
      destruct (elem_of_pivot_axes AggCount (value_col sig) bdf) as [Hi Hj].
      assert (is_Some (agg_at AggCount (value_col sig) bdf (j, i))) as Hs
        by (apply agg_at_count_is_Some; eauto).
      exists j, i. split; [done|]. split; [apply Hi|apply Hj]; eauto. }
  split; [exact Hsum|].
  intros Hall. rewrite Hsum. by rewrite (filter_all _ _ Hall).
Qed.

(** ** The update branch as a whole (lines 130-162) *)

Lemma pivot_table_mean_numeric cfg (bdf : list BRow) sig :
  Forall (filtered cfg) bdf →
  Forall (λ b, numeric_row (row b) = true) bdf →
  pivot_table bdf sig AggMean = Ok (pivot_frame AggMean (value_col sig) bdf).
Proof.
  intros Hf Hn. unfold pivot_table.
  destruct (values_numeric cfg sig bdf Hf Hn) as (vals & -> & _).
  by rewrite existsb_is_str_Num.
Qed.

Lemma update_Ok_numeric cfg (bdf : list BRow) :
  Forall (filtered cfg) bdf →
  Forall (λ b, numeric_row (row b) = true) bdf →
  ∃ out, update cfg bdf = Ok out ∧
         ts_chart out = create_timeseries_chart bdf.
Proof.
  intros Hf Hn. unfold update.
  destruct (trim_modes (selected_mode cfg)) as [sig|].
  - rewrite (pivot_table_mean_numeric cfg) by done. simpl.
    destruct (create_trim_heatmap _ _ _). simpl. by eexists.
  - rewrite !(pivot_table_mean_numeric cfg) by done. simpl.
    do 2 destruct (create_trim_heatmap _ _ _). simpl. by eexists.
Qed.

Lemma drawn_iff_mask cfg (P C : Frame (option Q)) k :
  same_axes P C →
  is_Some (cell_at (create_trim_heatmap cfg P C).1 k) ↔
  loc (create_trim_heatmap cfg P C).2 k = Some true.
Proof.
  intros Hax.
  assert (same_axes P (create_trim_heatmap cfg P C).2) as Hm.
  { eapply same_axes_trans; [exact Hax|].
    apply same_axes_sym, create_trim_heatmap_axes. }
  rewrite create_trim_heatmap_z. split.
  - intros [m H]. by apply cell_at_where in H as [_ ?].
  - intros Ht. pose proof Ht as Ht'.
    apply (mask_true_iff _ _ _ _ Hax) in Ht' as (m & c & Hp & _).
    exists m. by apply cell_at_where.
Qed.

Lemma count_drawn_iff (C : Frame (option Q)) (mask : Frame bool) k :
  same_axes C mask →
  (loc mask k = Some true → is_Some (cell_at C k)) →
  is_Some (cell_at (create_count_heatmap C mask) k) ↔ loc mask k = Some true.
Proof.
  intros Hax Hsome. unfold create_count_heatmap. split.
  - intros [c H]. by apply cell_at_where in H as [_ ?].
  - intros Ht. destruct (Hsome Ht) as [c Hc]. exists c.
    by apply cell_at_where.
Qed.

Lemma combined_true (ms ml : Frame bool) k :
  same_axes ms ml → well_formed ms → well_formed ml →
  loc (frame_or ms ml) k = Some true ↔
  loc ms k = Some true ∨ loc ml k = Some true.
Proof.
  intros Hax Hws Hwl. unfold frame_or. rewrite (loc_frame_zip _ _ _ _ Hax).
  assert (is_Some (loc ms k) ↔ is_Some (loc ml k)) as Hiff.
  { rewrite !loc_is_Some by done. destruct Hax as [-> ->]. done. }
  destruct (loc ms k) as [a|], (loc ml k) as [b|]; simpl.
  - split.
    + intros [= H]. apply orb_true_iff in H as [-> | ->]; [by left|by right].
    + intros [[= ->]|[= ->]]; by rewrite ?orb_true_r.
  - destruct Hiff as [Hiff _]. by destruct (Hiff ltac:(eauto)).
  - destruct Hiff as [_ Hiff]. by destruct (Hiff ltac:(eauto)).
  - split; [done|by intros [?|?]].
Qed.

(** X16.  On a filtered table whose trims are numbers the update branch never
    fails, whatever the view.  In a single-signal view the trim heatmap
    and the count heatmap draw exactly the keys the validity mask holds
    true.  In the side-by-side view each trim heatmap draws the keys of
    its own mask, and the count heatmap draws the keys that are valid for
    STFT or for LTFT.  The time series is drawn from the same table. *)
Theorem update_figures cfg (bdf : list BRow) :
  Forall (filtered cfg) bdf →
  Forall (λ b, numeric_row (row b) = true) bdf →
  ∃ out, update cfg bdf = Ok out ∧
    ts_chart out = create_timeseries_chart bdf ∧
    match heatmaps out with
    | Single fig_trim valid_mask fig_count =>
        selected_mode cfg ≠ ModeSideBySide ∧
        ∀ k, (is_Some (cell_at fig_trim k) ↔ loc valid_mask k = Some true) ∧
             (is_Some (cell_at fig_count k) ↔ loc valid_mask k = Some true)
    | SideBySide fig_stft fig_ltft mask_stft mask_ltft combined_mask fig_count =>
        selected_mode cfg = ModeSideBySide ∧
        ∀ k, (is_Some (cell_at fig_stft k) ↔ loc mask_stft k = Some true) ∧
             (is_Some (cell_at fig_ltft k) ↔ loc mask_ltft k = Some true) ∧
             (loc combined_mask k = Some true ↔
                loc mask_stft k = Some true ∨ loc mask_ltft k = Some true) ∧
             (is_Some (cell_at fig_count k) ↔
                is_Some (cell_at fig_stft k) ∨ is_Some (cell_at fig_ltft k))
    end.
Proof.
  intros Hf Hn. unfold update.
  destruct (trim_modes (selected_mode cfg)) as [sig|] eqn:Em.
  - rewrite (pivot_table_mean_numeric cfg) by done. simpl.
    pose proof (pivots_aligned cfg bdf sig sig AggMean AggCount Hf Hn) as Hax.
    set (P := pivot_frame AggMean (value_col sig) bdf) in *.
    set (C := pivot_frame AggCount (value_col sig) bdf) in *.
    pose proof (drawn_iff_mask cfg P C) as Ht.
    pose proof (create_trim_heatmap_axes cfg P C) as Hma.
    pose proof (mask_true_iff cfg P C) as Hmt.
    destruct (create_trim_heatmap cfg P C) as [ft vm] eqn:E. simpl in *.
    eexists. split; [reflexivity|]. split; [reflexivity|]. simpl.
    split; [by destruct (selected_mode cfg)|].
    intros k. split; [by apply Ht|].
    apply count_drawn_iff; [by apply same_axes_sym|].
    intros Hk. apply (Hmt k Hax) in Hk as (m & c & _ & Hc & _). eauto.
  - rewrite !(pivot_table_mean_numeric cfg) by done. simpl.
    destruct (side_by_side_masks_aligned cfg bdf Hf Hn)
      as (Has & Hal & Hmm & Hws & Hwl).
    set (Ps := pivot_frame AggMean (value_col SigSTFT) bdf) in *.
    set (Pl := pivot_frame AggMean (value_col SigLTFT) bdf) in *.
    set (C := pivot_frame AggCount (value_col SigSTFT) bdf) in *.
    pose proof (drawn_iff_mask cfg Ps C) as Hts.
    pose proof (drawn_iff_mask cfg Pl C) as Htl.
    pose proof (create_trim_heatmap_axes cfg Ps C) as Hmas.
    pose proof (mask_true_iff cfg Ps C) as Hmts.
    pose proof (mask_true_iff cfg Pl C) as Hmtl.
    destruct (create_trim_heatmap cfg Ps C) as [fs ms] eqn:Es.
    destruct (create_trim_heatmap cfg Pl C) as [fl ml] eqn:El. simpl in *.
    eexists. split; [reflexivity|]. split; [reflexivity|]. simpl.
    split; [by destruct (selected_mode cfg)|].
    intros k.
    pose proof (combined_true ms ml k Hmm Hws Hwl) as Hcomb.
    split_and!; [by apply Hts|by apply Htl|exact Hcomb|].
    rewrite (Hts k Has), (Htl k Hal), <- Hcomb.
    apply count_drawn_iff.
    + apply same_axes_sym. unfold frame_or, frame_zip, same_axes. simpl.
      by destruct Hmas.
    + intros Hk. apply Hcomb in Hk as [Hk|Hk].
      * apply (Hmts k Has) in Hk as (m & c & _ & Hc & _). eauto.
      * apply (Hmtl k Hal) in Hk as (m & c & _ & Hc & _). eauto.
Qed.

Lemma update_figures_witness :
  (Forall (filtered example_cfg) example_bdf ∧
   Forall (λ b, numeric_row (row b) = true) example_bdf) ∧
  ∃ out, update example_cfg example_bdf = Ok out ∧
         ts_chart out = create_timeseries_chart example_bdf.
Proof.
  split; [exact example_bdf_filtered|].
  destruct (update_figures example_cfg example_bdf
              (proj1 example_bdf_filtered) (proj2 example_bdf_filtered))
    as (out & Hout & Hts & _).
  by exists out.
Defined.

(** ** Text in the trim columns (lines 62, 133, 144-145) *)

Lemma assign_Err cfg (df : list Row) e : assign cfg df = Err e → e = Exception.
Proof.
  unfold assign. induction df as [|r df IH]; simpl; [done|].
  destruct (assign_row cfg r) as [b|e'] eqn:Er; simpl.
  - destruct (mapM (assign_row cfg) df) as [bs|e'']; simpl; [done|].
    intros [= <-]. by apply IH.
  - intros [= <-]. unfold assign_row in Er.
    destruct (RPM r) as [|?|?], (MAP_mbar r) as [|?|?];
      destruct (STFT r) as [|?|?], (LTFT r) as [|?|?];
      simplify_eq/=; done.
Qed.

Lemma text_trim_values cfg (b : BRow) sig :
  filtered cfg b → numeric_row (row b) = false →
  is_str (value_col sig b) = true.
Proof.
  intros Hb Hn.
  destruct (filtered_inv _ _ Hb)
    as (m & v & tt & _ & _ & _ & _ & Hs & Hl & Ht & Eb).
  assert (TotalTrim b = tt) as Htt by (rewrite Eb; done).
  unfold numeric_row in Hn.
  destruct sig; simpl; rewrite ?Htt;
    destruct (STFT (row b)) as [|?|?], (LTFT (row b)) as [|?|?];
    simpl in *; try done; by injection Ht as <-.
Qed.

Lemma update_text_trims cfg (bdf : list BRow) (b : BRow) :
  Forall (filtered cfg) bdf → b ∈ bdf → numeric_row (row b) = false →
  update cfg bdf = Err Exception.
Proof.
  intros Hf Hb Hn. rewrite Forall_forall in Hf.
  assert (∀ sig, pivot_table bdf sig AggMean = Err Exception) as Hp.
  { intros sig. unfold pivot_table.
    assert (existsb is_str (value_col sig <$> bdf) = true) as ->; [|done].
    apply existsb_exists. exists (value_col sig b). split.
    - apply list_elem_of_In. by apply list_elem_of_fmap_2.
    - apply (text_trim_values cfg); auto. }
  unfold update. destruct (trim_modes (selected_mode cfg)); by rewrite Hp.
Qed.

(** X17.  A record that passes the filter with text in a trim column makes the
    update branch fail in every view: no figure is produced, and a run
    with the update button pressed ends in the generic error. *)
Theorem text_trims_no_figures cfg (raw : list Row) (r : Row) :
  r ∈ raw → valid_row r = true → numeric_row r = false →
  (let* kept_rows := record_filter raw in
   let* df := assign cfg kept_rows in
   update cfg df) = Err Exception ∧
  (∀ df_log df_map m,
     resolve df_map = Ok m → rows (rename m df_log) = Ok raw →
     update_button cfg = true →
     script cfg df_log df_map = Err Exception).
Proof.
  intros Hr Hv Hn.
  assert ((let* kept_rows := record_filter raw in
           let* df := assign cfg kept_rows in
           update cfg df) = Err Exception) as Hmain.
  { destruct (record_filter raw) as [df|e] eqn:Ef.
    - simpl. destruct (assign cfg df) as [bdf|e] eqn:Ea; simpl.
      + destruct (assign_filtered _ _ _ _ Ef Ea) as [Hf Hrow].
        assert (r ∈ df) as Hin.
        { rewrite record_filter_eq in Ef.
          destruct (existsb text_key (dropna raw)); [done|].
          injection Ef as <-. apply list_elem_of_In, filter_In.
          split; [by apply list_elem_of_In|done]. }
        rewrite <- Hrow in Hin.
        apply list_elem_of_fmap in Hin as (b & -> & Hb).
        by apply (update_text_trims cfg bdf b).
      + by rewrite (assign_Err _ _ _ Ea).
    - simpl. rewrite record_filter_eq in Ef.
      destruct (existsb text_key (dropna raw)); by simplify_eq. }
  split; [exact Hmain|].
  intros df_log df_map m Hres Hrows Hbtn. unfold script.
  rewrite Hres. simpl. rewrite Hrows. simpl. rewrite Hbtn.
  revert Hmain.
  destruct (record_filter raw) as [df|e]; simpl; [|by intros [= ->]].
  destruct (assign_columns_cases cfg raw df) as [-> | ->]; [done|].
  destruct (assign cfg df) as [bdf|e]; simpl; [|by intros [= ->]].
  destruct (update_columns_cases cfg raw bdf) as [-> | ->]; [done|].
  by intros ->.
Qed.

Lemma text_trims_no_figures_witness :
  (text_row ∈ [text_row] ∧ valid_row text_row = true ∧
   numeric_row text_row = false) ∧
  (let* kept_rows := record_filter [text_row] in
   let* df := assign example_cfg kept_rows in
   update example_cfg df) = Err Exception.
Proof.
  assert (text_row ∈ [text_row]) as H1 by left.
  assert (valid_row text_row = true) as H2 by reflexivity.
  assert (numeric_row text_row = false) as H3 by reflexivity.
  split; [done|].
  exact (proj1 (text_trims_no_figures example_cfg [text_row] text_row
                  H1 H2 H3)).
Defined.

(** ** A run on a clean log (lines 41-165) *)

(** X18.  With an accepted mapping and a readable log that holds no text in the
    four required columns, the run never fails: every step succeeds, the
    figures are those of the update branch on the filtered table when the
    update button is pressed, and nothing is drawn when it is not. *)
Theorem script_clean_log cfg (df_log : DataFrame) (df_map : MapFrame)
    (m : gmap string string) (raw : list Row) :
  resolve df_map = Ok m →
  rows (rename m df_log) = Ok raw →
  Forall (λ r, text_key r = false ∧ numeric_row r = true) raw →
  ∃ bdf out,
    record_filter raw = Ok (List.filter valid_row raw) ∧
    assign cfg (List.filter valid_row raw) = Ok bdf ∧
    update cfg bdf = Ok out ∧
    ts_chart out = create_timeseries_chart bdf ∧
    script cfg df_log df_map = Ok (if update_button cfg then Some out else None).
Proof.
  intros Hres Hrows Hclean.
  assert (record_filter raw = Ok (List.filter valid_row raw)) as Hfl.
  { rewrite record_filter_eq.
    assert (existsb text_key (dropna raw) = false) as ->; [|done].
    unfold dropna. clear Hrows.
    induction Hclean as [|r l [Hr _] _ IH]; [done|].
    simpl. destruct (complete r); [|exact IH]. simpl. by rewrite Hr. }
  assert (Forall (λ r, numeric_row r = true) (List.filter valid_row raw))
    as Hnum.
  { apply Forall_forall. intros r Hr.
    apply list_elem_of_In, filter_In in Hr as [Hr _].
    rewrite Forall_forall in Hclean.
    by apply Hclean, list_elem_of_In. }
  destruct (assign_total cfg _ (record_filter_valid _ _ Hfl) Hnum)
    as [bdf Ha].
  destruct (assign_filtered _ _ _ _ Hfl Ha) as [Hf Hrow].
  assert (Forall (λ b, numeric_row (row b) = true) bdf) as Hnb.
  { apply (Forall_fmap row (λ r, numeric_row r = true)). by rewrite Hrow. }
  destruct (update_Ok_numeric cfg bdf Hf Hnb) as (out & Hout & Hts).
  exists bdf, out. split_and!; try done.
  assert (∀ col : Row → cell,
            (∀ r, text_key r = false ∧ numeric_row r = true →
                  is_str (col r) = false) →
            text_typed col raw = false) as Htyped.
  { intros col Hcol. apply text_typed_false.
    eapply Forall_impl; [exact Hclean|]. exact Hcol. }
  assert (text_typed MAP_mbar raw = false) as Hm.
  { apply Htyped. intros r [Hk _]. unfold text_key in Hk.
    by apply orb_false_iff in Hk as [? _]. }
  assert (text_typed RPM raw = false) as Hr.
  { apply Htyped. intros r [Hk _]. unfold text_key in Hk.
    by apply orb_false_iff in Hk as [_ ?]. }
  assert (text_typed STFT raw = false) as Hs.
  { apply Htyped. intros r [_ Hn]. unfold numeric_row in Hn.
    apply andb_true_iff in Hn as [Hn _]. by apply negb_true_iff in Hn. }
  assert (text_typed LTFT raw = false) as Hl.
  { apply Htyped. intros r [_ Hn]. unfold numeric_row in Hn.
    apply andb_true_iff in Hn as [_ Hn]. by apply negb_true_iff in Hn. }
  unfold script. rewrite Hres. simpl. rewrite Hrows. simpl.
  rewrite Hfl. simpl.
  rewrite (assign_columns_numeric _ _ _ Hm Hr Hs Hl), Ha. simpl.
  destruct (update_button cfg); [|done].
  by rewrite (update_columns_numeric _ _ _ Hs Hl), Hout.
Qed.

Lemma script_clean_log_witness :
  (resolve last_map
     = Ok (dict (zip ["b"; "map"; "st"; "lt"]
                     ["RPM"; "MAP_mbar"; "STFT"; "LTFT"])%string) ∧
   rows (rename (dict (zip ["b"; "map"; "st"; "lt"]
                           ["RPM"; "MAP_mbar"; "STFT"; "LTFT"])%string)
                dup_log)
     = Ok [mkRow (Num 500) (Num 2000) (Num 2) (Num 1)]) ∧
  ∃ out, script example_cfg dup_log last_map = Ok (Some out).
Proof.
  assert (resolve last_map
            = Ok (dict (zip ["b"; "map"; "st"; "lt"]
                            ["RPM"; "MAP_mbar"; "STFT"; "LTFT"])%string))
    as Hres by (by vm_compute).
  assert (rows (rename (dict (zip ["b"; "map"; "st"; "lt"]
                                  ["RPM"; "MAP_mbar"; "STFT"; "LTFT"])%string)
                       dup_log)
            = Ok [mkRow (Num 500) (Num 2000) (Num 2) (Num 1)])
    as Hrows by (by vm_compute).
  split; [by split|].
  destruct (script_clean_log example_cfg dup_log last_map _ _ Hres Hrows)
    as (bdf & out & _ & _ & _ & _ & Hs).
  - repeat constructor.
  - by exists out.
Defined.

(** ** The signals on one table (lines 57-62, 133-134, 146) *)

Lemma count_same_pattern (v v' : BRow → cell) (g : list BRow) :
  Forall (λ b, notna (v b) = notna (v' b)) g →
  length (List.filter notna (v <$> g)) = length (List.filter notna (v' <$> g)).
Proof.
  induction 1 as [|b g Hb _ IH]; [done|].
  rewrite !fmap_cons. cbn [List.filter]. rewrite Hb.
  destruct (notna (v' b)); simpl; by rewrite IH.
Qed.

(** X19.  A count grid depends on its value column only through which of its
    entries are missing: two signals that are missing in the same records
    give the same count grid. *)
Theorem count_grid_any_signal (bdf : list BRow) sig sig' :
  Forall (λ b, notna (value_col sig b) = notna (value_col sig' b)) bdf →
  pivot_table bdf sig AggCount = pivot_table bdf sig' AggCount.
Proof.
  intros Hsame. unfold pivot_table. f_equal. apply pivot_frame_ext. intros k.
  rewrite !agg_at_count.
  pose proof (count_same_pattern (value_col sig) (value_col sig')
                (group bdf k) (group_sub _ _ _ Hsame)) as Hlen.
  destruct (group bdf k); [done|]. by rewrite Hlen.
Qed.

Lemma count_grid_any_signal_witness :
  Forall (λ b, notna (value_col SigTotalTrim b) = notna (value_col SigSTFT b))
         example_bdf ∧
  pivot_table example_bdf SigTotalTrim AggCount
  = pivot_table example_bdf SigSTFT AggCount.
Proof.
  assert (Forall (λ b, notna (value_col SigTotalTrim b)
                       = notna (value_col SigSTFT b)) example_bdf) as H
    by (vm_compute; repeat constructor).
  split; [exact H|].
  exact (count_grid_any_signal example_bdf SigTotalTrim SigSTFT H).
Defined.

Lemma key_of_filtered cfg (b : BRow) :
  filtered cfg b → key_of b = bin_key cfg (row b).
Proof.
  intros Hb.
  destruct (filtered_inv _ _ Hb)
    as (m & v & tt & Hm & Hv & _ & _ & _ & _ & _ & Eb).
  unfold bin_key. rewrite Hv, Hm, Eb. done.
Qed.

Lemma group_members cfg (bdf : list BRow) k :
  Forall (filtered cfg) bdf →
  row <$> group bdf k = members cfg (row <$> bdf) k.
Proof.
  unfold group, members. induction 1 as [|b bdf Hb _ IH]; [done|].
  rewrite fmap_cons, !filter_cons, <- (key_of_filtered _ _ Hb).
  destruct (decide (key_of b = Some k)); [|exact IH].
  rewrite fmap_cons. by f_equal.
Qed.

(** X20.  The count grids of STFT and LTFT are determined by the rows of the
    log: at each key they hold the number of filtered records whose [RPM]
    and [MAP_mbar], finite numbers, floor to the bins of that key, and they
    hold nothing at a key that no filtered record floors to. *)
Theorem count_cell_members cfg (rows df : list Row) (bdf : list BRow) :
  record_filter rows = Ok df →
  assign cfg df = Ok bdf →
  ∃ Cs Cl,
    pivot_table bdf SigSTFT AggCount = Ok Cs ∧
    pivot_table bdf SigLTFT AggCount = Ok Cl ∧
    df = List.filter valid_row rows ∧
    ∀ k, cell_at Cs k = cell_at Cl k ∧
         cell_at Cs k =
         match members cfg df k with
         | [] => None
         | g => Some (inject_Z (Z.of_nat (length g)))
         end.
Proof.
  intros Hfl Ha. destruct (assign_filtered _ _ _ _ Hfl Ha) as [Hf Hrow].
  eexists _, _. split_and!; [reflexivity..| |].
  - rewrite record_filter_eq in Hfl.
    destruct (existsb text_key (dropna rows)); [done|]. by injection Hfl.
  - intros k. rewrite !cell_at_pivot_frame, !(count_filtered cfg) by done.
    split; [done|].
    rewrite <- Hrow, <- (group_members cfg) by done.
    destruct (group bdf k) as [|b g]; [done|].
    rewrite fmap_cons. cbv beta iota. cbn [length]. by rewrite length_fmap.
Qed.

Lemma count_cell_members_witness :
  (record_filter example_rows = Ok example_df ∧
   assign example_cfg example_df = Ok example_bdf) ∧
  cell_at (pivot_frame AggCount (value_col SigSTFT) example_bdf) (1000, 500)
    = Some 5%Q ∧
  length (members example_cfg example_df (1000, 500)) = 5%nat.
Proof.
  split; [exact example_filtered|].
  destruct (count_cell_members example_cfg example_rows example_df
              example_bdf (proj1 example_filtered) (proj2 example_filtered))
    as (Cs & Cl & Hs & _ & _ & Hk).
  injection Hs as <-. split; [|reflexivity].
  rewrite (proj2 (Hk (1000, 500))). reflexivity.
Defined.
